(** * The Elevator: dispatch core of [main.py]

    A shallow embedding of the classes [Button], [ElevatorDoor] and
    [Elevator] of [main.py], and the properties of the dispatch policy,
    the request set and the door that the specification states.

    Conventions of the embedding.
    - Python [int] is [Z]; [set[int]] is [gset Z]; [dict[int, Button]] is
      [gmap Z Button].
    - A method that mutates [self] is a function from the object before the
      call to the object after it (and the returned value).
    - Methods that can raise are in the monad [M]: [KeyError] for a failed
      dictionary subscript, [ValueError] for [min]/[max] of an empty list,
      [RecursionError] when the nesting of [_get_next_floor] exceeds the
      interpreter's recursion limit, which is a parameter [depth] of the
      embedding.
    - [time.sleep] changes no field of any object and is left out; the
      assignments around it are kept in order.
    - [random.randint(a, b)] is an input of the embedding: the drawn value is
      an argument of [add_random_stop], and theorems that need the contract
      of [randint] assume [a <= r <= b]. *)

From Stdlib Require Import ZArith String.
From stdpp Require Import gmap list fin_sets.

Local Open Scope Z_scope.

(** ** Enumerations and configuration *)

Inductive Direction := UP | DOWN | IDLE.

Inductive DoorState := OPEN | CLOSED | OPENING | CLOSING.

#[global] Instance Direction_eq_dec : EqDecision Direction.
Proof. solve_decision. Defined.

#[global] Instance DoorState_eq_dec : EqDecision DoorState.
Proof. solve_decision. Defined.

(** [ElevatorConfig]: the two float delays are only ever passed to
    [time.sleep]; the floor bounds are the fields the core reads. *)
Record ElevatorConfig := mkConfig {
  max_floors : Z;
  min_floors : Z
}.

(** [ElevatorConfig()] with the defaults of the dataclass. *)
Definition default_config : ElevatorConfig :=
  {| max_floors := 15; min_floors := 1 |}.

(** ** Exceptions and the state-and-error monad of the methods *)

Inductive exn :=
| KeyError (k : Z)
| ValueError
| RecursionError.

Inductive result (A : Type) :=
| Ok (a : A)
| Raise (e : exn).
Arguments Ok {A} a.
Arguments Raise {A} e.

(** ** Button *)

Record Button := mkButton {
  floor : Z;
  is_pressed : bool;
  is_stuck : bool
}.

(** [Button.__init__] *)
Definition Button_init (f : Z) : Button :=
  {| floor := f; is_pressed := false; is_stuck := false |}.

(** [Button.press]: the returned flag and the button after the call. *)
Definition press (b : Button) : bool * Button :=
  if is_stuck b then (false, b)
  else (true, {| floor := floor b; is_pressed := true; is_stuck := is_stuck b |}).

(** [Button.release] *)
Definition release (b : Button) : Button :=
  {| floor := floor b; is_pressed := false; is_stuck := is_stuck b |}.

(** [Button.set_stuck] *)
Definition set_stuck (stuck : bool) (b : Button) : Button :=
  {| floor := floor b; is_pressed := is_pressed b; is_stuck := stuck |}.

(** ** Floor *)

Record Floor := mkFloor {
  number : Z;
  call_button_up : option Button;
  call_button_down : option Button
}.

Definition Floor_init (n : Z) : Floor :=
  {| number := n; call_button_up := None; call_button_down := None |}.

(** ** ElevatorDoor *)

Record ElevatorDoor := mkDoor { state : DoorState }.

Definition ElevatorDoor_init : ElevatorDoor := {| state := CLOSED |}.

Definition is_open (d : ElevatorDoor) : bool := bool_decide (state d = OPEN).

Definition is_closed (d : ElevatorDoor) : bool := bool_decide (state d = CLOSED).

Definition set_state (s : DoorState) (d : ElevatorDoor) : ElevatorDoor :=
  {| state := s |}.

(** [ElevatorDoor.open] *)
Definition open (d : ElevatorDoor) : ElevatorDoor :=
  if bool_decide (state d = OPEN) then d
  else
    let d1 := set_state OPENING d in
    set_state OPEN d1.

(** [ElevatorDoor.close] *)
Definition close (d : ElevatorDoor) : ElevatorDoor :=
  if bool_decide (state d = CLOSED) then d
  else
    let d1 := set_state CLOSING d in
    set_state CLOSED d1.

(** [ElevatorDoor.force_open]: the returned flag and the door after the
    call. *)
Definition force_open (d : ElevatorDoor) : bool * ElevatorDoor :=
  if bool_decide (state d = CLOSING) then
    let d1 := set_state OPENING d in
    let d2 := set_state OPEN d1 in
    (true, d2)
  else (false, d).

(** ** Elevator *)

Record Elevator := mkElevator {
  config : ElevatorConfig;
  elevator_id : string;
  current_floor : Z;
  direction : Direction;
  door : ElevatorDoor;
  requested_floors : gset Z;
  floor_buttons : gmap Z Button;
  floors : list Floor
}.

Definition set_current_floor (v : Z) (e : Elevator) : Elevator :=
  mkElevator (config e) (elevator_id e) v (direction e) (door e)
             (requested_floors e) (floor_buttons e) (floors e).

Definition set_direction (v : Direction) (e : Elevator) : Elevator :=
  mkElevator (config e) (elevator_id e) (current_floor e) v (door e)
             (requested_floors e) (floor_buttons e) (floors e).

Definition set_door (v : ElevatorDoor) (e : Elevator) : Elevator :=
  mkElevator (config e) (elevator_id e) (current_floor e) (direction e) v
             (requested_floors e) (floor_buttons e) (floors e).

Definition set_requested_floors (v : gset Z) (e : Elevator) : Elevator :=
  mkElevator (config e) (elevator_id e) (current_floor e) (direction e)
             (door e) v (floor_buttons e) (floors e).

Definition set_floor_buttons (v : gmap Z Button) (e : Elevator) : Elevator :=
  mkElevator (config e) (elevator_id e) (current_floor e) (direction e)
             (door e) (requested_floors e) v (floors e).

(** [range(config.min_floors, config.max_floors + 1)] *)
Definition floor_range (c : ElevatorConfig) : list Z :=
  seqZ (min_floors c) (max_floors c + 1 - min_floors c).

(** [Elevator.__init__] *)
Definition Elevator_init (c : ElevatorConfig) (id : string) : Elevator :=
  {| config := c;
     elevator_id := id;
     current_floor := min_floors c;
     direction := IDLE;
     door := ElevatorDoor_init;
     requested_floors := ∅;
     floor_buttons :=
       foldl (fun m f => <[f := Button_init f]> m) ∅ (floor_range c);
     floors := Floor_init <$> floor_range c |}.

(** The monad of the elevator's methods: the object before the call to an
    exception or the returned value and the object after the call. *)
Definition M (A : Type) : Type := Elevator -> result (A * Elevator).

#[global] Instance M_ret : MRet M := fun A a self => Ok (a, self).

#[global] Instance M_bind : MBind M := fun A B k m self =>
  match m self with
  | Ok (a, self') => k a self'
  | Raise x => Raise x
  end.

Definition raise {A} (x : exn) : M A := fun _ => Raise x.

Definition get {A} (field : Elevator -> A) : M A :=
  fun self => Ok (field self, self).

Definition modify (f : Elevator -> Elevator) : M unit :=
  fun self => Ok (tt, f self).

(** [self._floor_buttons[floor]] *)
Definition button_at (f : Z) : M Button :=
  fun self =>
    match floor_buttons self !! f with
    | Some b => Ok (b, self)
    | None => Raise (KeyError f)
    end.

(** [Elevator.press_floor_button] *)
Definition press_floor_button (f : Z) : M bool :=
  c ← get config;
  if negb (bool_decide (min_floors c <= f <= max_floors c)) then mret false
  else
    button ← button_at f;
    let (pressed, button') := press button in
    modify (fun self => set_floor_buttons (<[f := button']> (floor_buttons self)) self);;
    if pressed then
      modify (fun self => set_requested_floors ({[f]} ∪ requested_floors self) self);;
      d ← get direction;
      (if bool_decide (d = IDLE) then
         cur ← get current_floor;
         modify (set_direction (if bool_decide (f > cur) then UP else DOWN))
       else mret tt);;
      mret true
    else mret false.

(** [Elevator.add_random_stop]; [random_floor] is the value that
    [random.randint(min_floors, max_floors)] returns when it is called. *)
Definition add_random_stop (random_floor : Z) (self : Elevator) : Elevator :=
  let c := config self in
  if bool_decide (Z.of_nat (size (requested_floors self)) < max_floors c - min_floors c) then
    if bool_decide (random_floor ≠ current_floor self) then
      set_requested_floors ({[random_floor]} ∪ requested_floors self) self
    else self
  else self.

(** One iteration of the movement loop of [move_to_floor]. *)
Definition move_step (self : Elevator) : Elevator :=
  if bool_decide (direction self = UP) then
    set_current_floor (current_floor self + 1) self
  else
    set_current_floor (current_floor self - 1) self.

(** [Elevator.move_to_floor] *)
Definition move_to_floor (target_floor : Z) (self : Elevator) : Elevator :=
  if bool_decide (target_floor = current_floor self) then self
  else
    let self1 :=
      if bool_decide (target_floor > current_floor self)
      then set_direction UP self
      else set_direction DOWN self in
    let floors_to_move := Z.abs (target_floor - current_floor self1) in
    Nat.iter (Z.to_nat floors_to_move) move_step self1.

(** Python's [min] and [max] of a list: [ValueError] on the empty list. *)
Definition py_min (l : list Z) : M Z :=
  match l with
  | [] => raise ValueError
  | x :: l' => mret (foldl Z.min x l')
  end.

Definition py_max (l : list Z) : M Z :=
  match l with
  | [] => raise ValueError
  | x :: l' => mret (foldl Z.max x l')
  end.

(** [Elevator._get_next_floor]; [depth] is the number of nested calls the
    interpreter still allows. *)
Fixpoint _get_next_floor (depth : nat) : M (option Z) :=
  match depth with
  | O => raise RecursionError
  | S depth' =>
    requested ← get requested_floors;
    if bool_decide (requested = ∅) then mret None
    else
      d ← get direction;
      cur ← get current_floor;
      match d with
      | UP =>
        let floors_in_direction := filter (fun f => f > cur) (elements requested) in
        if bool_decide (floors_in_direction = []) then
          modify (set_direction DOWN);;
          _get_next_floor depth'
        else
          m ← py_min floors_in_direction; mret (Some m)
      | DOWN =>
        let floors_in_direction := filter (fun f => f < cur) (elements requested) in
        if bool_decide (floors_in_direction = []) then
          modify (set_direction UP);;
          _get_next_floor depth'
        else
          m ← py_max floors_in_direction; mret (Some m)
      | IDLE =>
        if bool_decide (requested ≠ ∅) then
          first ← py_min (elements requested);
          modify (set_direction (if bool_decide (first > cur) then UP else DOWN));;
          _get_next_floor depth'
        else mret None
      end
  end.

(** [Elevator.process_next_request] *)
Definition process_next_request (depth : nat) : M bool :=
  next_floor ← _get_next_floor depth;
  match next_floor with
  | None =>
    modify (set_direction IDLE);;
    mret false
  | Some next_floor =>
    modify (move_to_floor next_floor);;
    d ← get door;
    (if negb (is_open d) then modify (fun self => set_door (open (door self)) self)
     else mret tt);;
    requested ← get requested_floors;
    (if bool_decide (next_floor ∈ requested) then
       button ← button_at next_floor;
       modify (fun self =>
         set_floor_buttons (<[next_floor := release button]> (floor_buttons self)) self);;
       modify (fun self =>
         set_requested_floors (requested_floors self ∖ {[next_floor]}) self)
     else mret tt);;
    d ← get door;
    (if negb (is_closed d) then modify (fun self => set_door (close (door self)) self)
     else mret tt);;
    mret true
  end.

(** The two list comprehensions of [_get_next_floor]. *)
Definition floors_above (self : Elevator) : list Z :=
  filter (fun f => f > current_floor self) (elements (requested_floors self)).

Definition floors_below (self : Elevator) : list Z :=
  filter (fun f => f < current_floor self) (elements (requested_floors self)).

(** ** Predicates of the specification *)

(** [m] is the minimum pending floor strictly above the current floor. *)
Definition is_min_above (e : Elevator) (m : Z) : Prop :=
  m ∈ requested_floors e /\ m > current_floor e /\
  forall f, f ∈ requested_floors e -> f > current_floor e -> m <= f.

(** [m] is the maximum pending floor strictly below the current floor. *)
Definition is_max_below (e : Elevator) (m : Z) : Prop :=
  m ∈ requested_floors e /\ m < current_floor e /\
  forall f, f ∈ requested_floors e -> f < current_floor e -> f <= m.

(** Direction is Idle iff the pending set is empty. *)
Definition idle_iff_empty (e : Elevator) : Prop :=
  direction e = IDLE <-> requested_floors e = ∅.

(** Every pending floor has its button in the pressed state. *)
Definition requests_pressed (e : Elevator) : Prop :=
  forall f, f ∈ requested_floors e ->
    exists b, floor_buttons e !! f = Some b /\ is_pressed b = true.

(** The current floor is within the configured bounds. *)
Definition floor_in_bounds (e : Elevator) : Prop :=
  min_floors (config e) <= current_floor e <= max_floors (config e).

(** Every pending floor is within the configured bounds. *)
Definition requests_in_bounds (e : Elevator) : Prop :=
  forall f, f ∈ requested_floors e ->
    min_floors (config e) <= f <= max_floors (config e).

(** Every floor within the configured bounds has a button in the
    dictionary, as [__init__] builds it. *)
Definition buttons_complete (e : Elevator) : Prop :=
  forall f, min_floors (config e) <= f <= max_floors (config e) ->
    is_Some (floor_buttons e !! f).

(** The cap of [add_random_stop] on the number of pending floors. *)
Definition within_cap (e : Elevator) : Prop :=
  Z.of_nat (size (requested_floors e)) <= max_floors (config e) - min_floors (config e).

(** The object after a call that returns normally (the object before it
    when the call raises). *)
Definition after {A} (m : M A) (e : Elevator) : Elevator :=
  match m e with
  | Ok (_, e') => e'
  | Raise _ => e
  end.

(** A fresh elevator of the default configuration, and the same elevator
    after the button of every floor has been pressed, in floor order. *)
Definition fresh : Elevator := Elevator_init default_config "A".

Definition all_pressed : Elevator :=
  foldl (fun e f => after (press_floor_button f) e) fresh (floor_range default_config).

(** The elevator of the adventure game whose floor-5 button is stuck. *)
Definition elevator_c : Elevator :=
  let e := Elevator_init default_config "C" in
  set_floor_buttons (alter (set_stuck true) 5 (floor_buttons e)) e.

(** ** The rest of [main.py]: accessors, floors, players, buildings *)

(** [Elevator.get_button]: [dict.get], [None] for a missing key. *)
Definition get_button (f : Z) (self : Elevator) : option Button :=
  floor_buttons self !! f.

(** [Floor.set_call_buttons] and [Floor.get_call_button] *)
Definition set_call_buttons (up down : option Button) (fl : Floor) : Floor :=
  {| number := number fl; call_button_up := up; call_button_down := down |}.

Definition get_call_button (d : Direction) (fl : Floor) : option Button :=
  match d with
  | UP => call_button_up fl
  | DOWN => call_button_down fl
  | IDLE => None
  end.

(** [Player] *)
Record Player := mkPlayer {
  name : string;
  patience : Z
}.

Definition Player_init (n : string) : Player := {| name := n; patience := 100 |}.

Definition decrease_patience (amount : Z) (p : Player) : Player :=
  {| name := name p; patience := Z.max 0 (patience p - amount) |}.

Definition increase_patience (amount : Z) (p : Player) : Player :=
  {| name := name p; patience := Z.min 100 (patience p + amount) |}.

Definition has_patience (p : Player) : bool := bool_decide (patience p > 0).

(** [Building]: the list holds the elevators in the order they were added. *)
Record Building := mkBuilding {
  building_name : string;
  building_config : ElevatorConfig;
  elevators : list Elevator
}.

Definition Building_init (n : string) (c : ElevatorConfig) : Building :=
  {| building_name := n; building_config := c; elevators := [] |}.

Definition add_elevator (e : Elevator) (b : Building) : Building :=
  {| building_name := building_name b;
     building_config := building_config b;
     elevators := elevators b ++ [e] |}.

(** [Building.get_elevator]: the index is checked against
    [0 <= index < len], so a negative index gives [None]. *)
Definition get_elevator (index : Z) (b : Building) : option Elevator :=
  if bool_decide (0 <= index < Z.of_nat (length (elevators b)))
  then elevators b !! Z.to_nat index
  else None.

(** ** The door under any sequence of calls *)

Inductive door_call := CallOpen | CallClose | CallForceOpen.

Definition door_step (d : ElevatorDoor) (c : door_call) : ElevatorDoor :=
  match c with
  | CallOpen => open d
  | CallClose => close d
  | CallForceOpen => snd (force_open d)
  end.

(** The door after the calls of [cs], in order, on a new door. *)
Definition door_after (cs : list door_call) : ElevatorDoor :=
  foldl door_step ElevatorDoor_init cs.

(** ** InteractiveElevatorMode *)

Module InteractiveElevatorMode.

(** The floors the movement loop of [_move_to_floor] iterates over:
    [range(start + 1, target + 1)] going up,
    [range(start - 1, target - 1, -1)] going down. *)
Definition floors_passed (d : Direction) (start_floor target_floor : Z) : list Z :=
  if bool_decide (d = UP)
  then seqZ (start_floor + 1) (target_floor - start_floor)
  else (fun i => start_floor - 1 - i) <$> seqZ 0 (start_floor - target_floor).

(** [InteractiveElevatorMode._move_to_floor], its effect on
    [self._elevator]; [direction] is the method's local variable, the
    elevator's own direction is only written at the end. *)
Definition _move_to_floor (target_floor : Z) : M unit :=
  d ← get door;
  (if is_open d then modify (fun self => set_door (close (door self)) self)
   else mret tt);;
  start_floor ← get current_floor;
  let direction := if bool_decide (target_floor > start_floor) then UP else DOWN in
  modify (fun self =>
    foldl (fun self _ =>
             if bool_decide (direction = UP)
             then set_current_floor (current_floor self + 1) self
             else set_current_floor (current_floor self - 1) self)
          self (floors_passed direction start_floor target_floor));;
  d ← get door;
  (if negb (is_open d) then modify (fun self => set_door (open (door self)) self)
   else mret tt);;
  button ← get (get_button target_floor);
  match button with
  | Some b =>
    modify (fun self =>
      set_floor_buttons (<[target_floor := release b]> (floor_buttons self)) self)
  | None => mret tt
  end;;
  modify (fun self =>
    set_requested_floors (requested_floors self ∖ {[target_floor]}) self);;
  requested ← get requested_floors;
  if bool_decide (requested = ∅) then modify (set_direction IDLE) else mret tt.

(** [InteractiveElevatorMode._process_pending_requests]: [fuel] bounds the
    iterations of the [while] loop ([None] when it is used up), [depth] is
    the recursion budget of [_get_next_floor]. *)
Fixpoint _process_pending_requests (fuel depth : nat) (self : Elevator)
  : option (result (unit * Elevator)) :=
  match fuel with
  | O => None
  | S fuel' =>
    if bool_decide (requested_floors self = ∅) then Some (Ok (tt, self))
    else
      match _get_next_floor depth self with
      | Raise x => Some (Raise x)
      | Ok (None, self1) => Some (Ok (tt, self1))
      | Ok (Some next_floor, self1) =>
        match _move_to_floor next_floor self1 with
        | Raise x => Some (Raise x)
        | Ok (_, self2) => _process_pending_requests fuel' depth self2
        end
      end
  end.

(** One turn of the loop of [InteractiveElevatorMode.play] once
    [get_floor_input] has returned the floor [target_floor]. *)
Definition play_turn (fuel depth : nat) (target_floor : Z) (self : Elevator)
  : option (result (unit * Elevator)) :=
  if bool_decide (target_floor = current_floor self) then Some (Ok (tt, self))
  else
    match press_floor_button target_floor self with
    | Raise x => Some (Raise x)
    | Ok (false, self1) => Some (Ok (tt, self1))
    | Ok (true, self1) => _process_pending_requests fuel depth self1
    end.

(** The turns of [play] for the successive inputs [targets], stopping at
    the first exception. *)
Fixpoint play_turns (fuel depth : nat) (targets : list Z) (self : Elevator)
  : option (result (unit * Elevator)) :=
  match targets with
  | [] => Some (Ok (tt, self))
  | t :: targets' =>
    match play_turn fuel depth t self with
    | Some (Ok (_, self1)) => play_turns fuel depth targets' self1
    | other => other
    end
  end.

End InteractiveElevatorMode.

(** ** Events *)

(** [ElevatorEvent]: the fields of the base class. *)
Record ElevatorEvent := mkEvent {
  event_floor : Z;
  resolved : bool
}.

(** [ElevatorEvent.__init__] *)
Definition ElevatorEvent_init (f : Z) : ElevatorEvent :=
  {| event_floor := f; resolved := false |}.

Definition set_resolved (ev : ElevatorEvent) : ElevatorEvent :=
  {| event_floor := event_floor ev; resolved := true |}.

(** The four subclasses.  The [Button] a [StuckButtonEvent] holds is a
    reference: at its only construction site
    ([ElevatorAdventureGame.play]) it is [get_button(k)] of the elevator
    that [handle_event] later passes to [handle_choice], so the embedding
    keeps the key [k] and reads and writes the button in that elevator's
    dictionary. *)
Inductive Event :=
| MusicEvent (base : ElevatorEvent)
| StuckButtonEvent (base : ElevatorEvent) (button : Z)
| UnexpectedStopEvent (base : ElevatorEvent)
| WeirdSoundEvent (base : ElevatorEvent).

Definition event_base (ev : Event) : ElevatorEvent :=
  match ev with
  | MusicEvent b | StuckButtonEvent b _ | UnexpectedStopEvent b | WeirdSoundEvent b => b
  end.

(** [get_choices] of each subclass *)
Definition get_choices (ev : Event) : list string :=
  match ev with
  | MusicEvent _ =>
    ["Cover your ears and wait it out";
     "Try to find the volume control";
     "Press all the buttons in frustration"]
  | StuckButtonEvent _ _ =>
    ["Ignore it"; "Try to unstick it carefully"; "Press it repeatedly"]
  | UnexpectedStopEvent _ =>
    ["Wait calmly"; "Press the door open button"; "Look for the emergency phone"]
  | WeirdSoundEvent _ =>
    ["Ignore it - elevators make weird sounds";
     "Get worried and check the emergency button";
     "Press the next floor button quickly"]
  end%string.

(** [handle_choice] of each subclass: the returned pair, the event and the
    elevator after the call.  [chance] is the outcome of the comparison
    [random.random() < p] where the branch taken evaluates one;
    [random_floor] is the draw of [add_random_stop] where it is called. *)
Definition handle_choice (choice : Z) (chance : bool) (random_floor : Z)
    (ev : Event) (elevator : Elevator) : (bool * string) * Event * Elevator :=
  match ev with
  | MusicEvent b =>
    if bool_decide (choice = 1) then
      ((false, "You endure the loud music. Your patience decreases slightly."),
       ev, elevator)
    else if bool_decide (choice = 2) then
      if chance then
        ((false, "[SUCCESS] You find a hidden volume control and turn it down! The music stops."),
         MusicEvent (set_resolved b), elevator)
      else
        ((true, "[FAILED] You can't find the volume control. The music continues."),
         ev, elevator)
    else
      ((true, "[WARNING] You press random buttons! The elevator stops briefly..."),
       ev, add_random_stop random_floor elevator)
  | StuckButtonEvent b k =>
    if bool_decide (choice = 1) then
      ((false, "You decide to ignore it. Nothing happens."), ev, elevator)
    else if bool_decide (choice = 2) then
      if chance then
        ((false, "[SUCCESS] You carefully fix the stuck button! It works now."),
         StuckButtonEvent (set_resolved b) k,
         set_floor_buttons (alter (set_stuck false) k (floor_buttons elevator)) elevator)
      else
        ((true, "[FAILED] You try to fix it but make it worse. The elevator shudders!"),
         ev, elevator)
    else
      ((true, "[WARNING] You press it too hard! The elevator jolts and stops."),
       ev, elevator)
  | UnexpectedStopEvent b =>
    if bool_decide (choice = 1) then
      ((true, "You wait patiently. The doors open after a moment. False alarm!"),
       UnexpectedStopEvent (set_resolved b), elevator)
    else if bool_decide (choice = 2) then
      ((true, "[SUCCESS] You press the door button and the doors open!"),
       UnexpectedStopEvent (set_resolved b),
       set_door (snd (force_open (door elevator))) elevator)
    else
      ((true, "You find the emergency phone but don't need it. The doors eventually open."),
       ev, elevator)
  | WeirdSoundEvent b =>
    if bool_decide (choice = 1) then
      if chance then
        ((false, "Good call! It was just a normal elevator sound. Nothing happens."),
         ev, elevator)
      else
        ((true, "[WARNING] The elevator slows down... but eventually continues."),
         ev, elevator)
    else if bool_decide (choice = 2) then
      ((false, "You check the emergency button but don't press it. The sound stops."),
       ev, elevator)
    else
      ((true, "[WARNING] You panic and hit the button! The elevator stops unnecessarily."),
       ev, add_random_stop random_floor elevator)
  end%string.

(** Python's [needle in haystack] on strings. *)
Fixpoint contains (needle haystack : string) : bool :=
  if String.prefix needle haystack then true
  else match haystack with
       | EmptyString => false
       | String _ rest => contains needle rest
       end.

(** [ElevatorAdventureGame.handle_event] after [get_choice] has returned
    [player_choice]: the returned flag, the event, the player and the
    selected elevator after the call.  [patience_draw] is the draw of
    [random.randint(5, 20)] where it is made. *)
Definition handle_event (player_choice : Z) (chance : bool) (random_floor : Z)
    (patience_draw : Z) (ev : Event) (p : Player) (elevator : Elevator)
  : bool * Event * Player * Elevator :=
  let '((causes_delay, message), ev', elevator') :=
    handle_choice player_choice chance random_floor ev elevator in
  let p' :=
    if causes_delay then decrease_patience patience_draw p
    else if contains "[SUCCESS]" message then increase_patience 5 p
    else p in
  (causes_delay, ev', p', elevator').

(** [ElevatorAdventureGame.__init__]: the building with its three
    elevators; [quirk] is the outcome of [random.random() < 0.5]. *)
Definition ElevatorAdventureGame_init (quirk : bool) : Building :=
  let config := default_config in
  let building := Building_init "TechCorp Building" config in
  let elevator_a := Elevator_init config "A" in
  let elevator_b := Elevator_init config "B" in
  let elevator_c := Elevator_init config "C" in
  let elevator_c :=
    match get_button 5 elevator_c with
    | Some button_c =>
      if quirk
      then set_floor_buttons
             (<[5 := set_stuck true button_c]> (floor_buttons elevator_c)) elevator_c
      else elevator_c
    | None => elevator_c
    end in
  add_elevator elevator_c (add_elevator elevator_b (add_elevator elevator_a building)).

(** ** Predicates for the rest of the code *)

(** The door is at rest: Open or Closed. *)
Definition settled (d : ElevatorDoor) : Prop :=
  state d = OPEN \/ state d = CLOSED.

(** The player's patience is a percentage. *)
Definition patience_in_range (p : Player) : Prop := 0 <= patience p <= 100.

(** Two button dictionaries have the same keys and, key by key, buttons
    with the same floor and the same stuck flag: they differ at most in
    which buttons are pressed. *)
Definition same_buttons_up_to_pressed (m m' : gmap Z Button) : Prop :=
  forall f,
    match m !! f, m' !! f with
    | Some b, Some b' => floor b' = floor b /\ is_stuck b' = is_stuck b
    | None, None => True
    | _, _ => False
    end.

(** No button of the elevator is stuck. *)
Definition no_button_stuck (e : Elevator) : Prop :=
  forall f b, floor_buttons e !! f = Some b -> is_stuck b = false.

(** What holds between two turns of the interactive mode: the default
    configuration, nothing pending, direction Idle, every button present
    and none stuck. *)
Definition at_rest (e : Elevator) : Prop :=
  config e = default_config /\ requested_floors e = ∅ /\ direction e = IDLE /\
  buttons_complete e /\ no_button_stuck e.

(** The dispatch query can make progress: nothing is pending, or some
    pending floor is not the current floor. *)
Definition dispatchable (e : Elevator) : Prop :=
  requested_floors e = ∅ \/
  exists f, f ∈ requested_floors e /\ f <> current_floor e.

(** The elevators that the public operations produce from a new elevator
    of configuration [c]: [press_floor_button], [add_random_stop] (with a
    draw of [randint] within its bounds) and [process_next_request], each
    when it returns normally. *)
Inductive reachable (c : ElevatorConfig) : Elevator -> Prop :=
| reach_init (id : string) : reachable c (Elevator_init c id)
| reach_press (e : Elevator) (f : Z) (r : bool) (e' : Elevator) :
    reachable c e -> press_floor_button f e = Ok (r, e') -> reachable c e'
| reach_random (e : Elevator) (rf : Z) :
    reachable c e -> min_floors c <= rf <= max_floors c ->
    reachable c (add_random_stop rf e)
| reach_process (e : Elevator) (depth : nat) (r : bool) (e' : Elevator) :
    reachable c e -> process_next_request depth e = Ok (r, e') -> reachable c e'.

(** What every reachable elevator satisfies. *)
Definition well_formed (c : ElevatorConfig) (e : Elevator) : Prop :=
  config e = c /\ floor_in_bounds e /\ requests_in_bounds e /\
  door e = mkDoor CLOSED /\
  (forall f, min_floors c <= f <= max_floors c ->
     exists b, floor_buttons e !! f = Some b /\ floor b = f /\ is_stuck b = false) /\
  (forall f, ~ (min_floors c <= f <= max_floors c) -> floor_buttons e !! f = None).

(** Unfold the monad's operations so that a method reads as a plain
    function of the object. *)
Ltac run :=
  unfold mbind, M_bind, mret, M_ret, get, modify, raise, button_at; simpl.

(** ** Running the model on the examples of the specification *)

Definition scenario (cur : Z) (d : Direction) (pending : list Z) : Elevator :=
  set_requested_floors (list_to_set pending)
    (set_direction d (set_current_floor cur (Elevator_init default_config "A"))).

Definition outcome (r : result (option Z * Elevator)) : option (option Z * Direction) :=
  match r with
  | Ok (n, e) => Some (n, direction e)
  | Raise _ => None
  end.

Example dispatch_up_5 :
  outcome (_get_next_floor 2 (scenario 5 UP [3; 8; 10])) = Some (Some 8, UP).
Proof. vm_compute. reflexivity. Qed.

Example dispatch_up_12 :
  outcome (_get_next_floor 2 (scenario 12 UP [3; 8])) = Some (Some 8, DOWN).
Proof. vm_compute. reflexivity. Qed.

(** ** Proof support *)

Lemma elevator_eq (e1 e2 : Elevator) :
  config e1 = config e2 -> elevator_id e1 = elevator_id e2 ->
  current_floor e1 = current_floor e2 -> direction e1 = direction e2 ->
  door e1 = door e2 -> requested_floors e1 = requested_floors e2 ->
  floor_buttons e1 = floor_buttons e2 -> floors e1 = floors e2 ->
  e1 = e2.
Proof. destruct e1, e2; simpl; intros; subst; reflexivity. Qed.

(** ** The door *)

(** C7: [force_open] returns True exactly when the door is Closing at the
    time of the call, and the door then ends Open; in every other state it
    returns False and the door is unchanged. *)
Theorem force_open_spec (d : ElevatorDoor) :
  (fst (force_open d) = true <-> state d = CLOSING) /\
  (state d = CLOSING -> state (snd (force_open d)) = OPEN) /\
  (state d <> CLOSING -> fst (force_open d) = false /\ snd (force_open d) = d).
Proof.
  unfold force_open.
  destruct d as [s]; destruct s; simpl; repeat split; intros; congruence.
Qed.

Lemma force_open_spec_witness :
  state (snd (force_open (mkDoor CLOSING))) = OPEN /\
  snd (force_open (mkDoor OPEN)) = mkDoor OPEN.
Proof.
  split.
  - apply (proj1 (proj2 (force_open_spec (mkDoor CLOSING)))). reflexivity.
  - apply (proj2 (proj2 (force_open_spec (mkDoor OPEN)))). discriminate.
Defined.

(** ** Pressing a floor button *)

(** C5: for a floor within the configured bounds whose button is not
    stuck, [press_floor_button] returns True, the floor is pending
    afterwards, its button reports pressed, and the direction is resolved
    from Idle towards the floor (Up if the floor is above the current
    floor, Down otherwise) and left alone when it was not Idle. *)
Theorem press_floor_button_ok (e : Elevator) (f : Z) (b : Button) :
  min_floors (config e) <= f <= max_floors (config e) ->
  floor_buttons e !! f = Some b ->
  is_stuck b = false ->
  exists e',
    press_floor_button f e = Ok (true, e') /\
    f ∈ requested_floors e' /\
    (exists b', floor_buttons e' !! f = Some b' /\ is_pressed b' = true) /\
    (direction e = IDLE ->
       direction e' = if bool_decide (f > current_floor e) then UP else DOWN) /\
    (direction e <> IDLE -> direction e' = direction e).
Proof.
  intros Hb Hf Hs. unfold press_floor_button. run.
  rewrite bool_decide_eq_true_2 by exact Hb. simpl.
  rewrite Hf. unfold press. rewrite Hs. simpl.
  destruct (direction e) eqn:Hd; simpl;
    (eexists; split; [reflexivity|]; simpl;
     split; [apply elem_of_union_l, elem_of_singleton; reflexivity|];
     split; [eexists; split; [apply lookup_insert_eq|reflexivity]|];
     split; intros; congruence).
Qed.

Lemma press_floor_button_ok_witness :
  exists e',
    press_floor_button 4 (Elevator_init default_config "A") = Ok (true, e') /\
    4 ∈ requested_floors e' /\
    (exists b', floor_buttons e' !! 4 = Some b' /\ is_pressed b' = true) /\
    (direction (Elevator_init default_config "A") = IDLE ->
       direction e' = if bool_decide (4 > current_floor (Elevator_init default_config "A"))
                      then UP else DOWN) /\
    (direction (Elevator_init default_config "A") <> IDLE ->
       direction e' = direction (Elevator_init default_config "A")).
Proof.
  apply (press_floor_button_ok (Elevator_init default_config "A") 4 (Button_init 4)).
  - simpl. lia.
  - vm_compute. reflexivity.
  - reflexivity.
Defined.

(** C6: [press_floor_button] returns False and leaves the whole elevator
    as it was (current floor, direction, pending set, every button, the
    door) when the floor is outside the configured bounds or its button is
    stuck. *)
Theorem press_floor_button_rejected (e : Elevator) (f : Z) :
  ~ (min_floors (config e) <= f <= max_floors (config e)) \/
  (exists b, floor_buttons e !! f = Some b /\ is_stuck b = true) ->
  press_floor_button f e = Ok (false, e).
Proof.
  intros H. unfold press_floor_button. run.
  destruct (bool_decide (min_floors (config e) <= f <= max_floors (config e))) eqn:Hin;
    simpl; [|reflexivity].
  destruct H as [Hout | (b & Hf & Hs)].
  - apply bool_decide_eq_true_1 in Hin. contradiction.
  - rewrite Hf. unfold press. rewrite Hs. simpl.
    do 2 f_equal. apply elevator_eq; simpl; try reflexivity.
    apply insert_id. exact Hf.
Qed.

Lemma press_floor_button_rejected_witness :
  press_floor_button 16 elevator_c = Ok (false, elevator_c) /\
  press_floor_button 5 elevator_c = Ok (false, elevator_c).
Proof.
  split.
  - apply press_floor_button_rejected. left. simpl. lia.
  - apply press_floor_button_rejected. right.
    exists (set_stuck true (Button_init 5)). split; vm_compute; reflexivity.
Defined.

(** ** The dispatch policy *)

Section Extrema.

Lemma foldl_min_spec (l : list Z) : forall x,
  foldl Z.min x l ∈ x :: l /\ forall y, y ∈ x :: l -> foldl Z.min x l <= y.
Proof.
  induction l as [|a l IH]; intros x; simpl.
  - split; [left|]. intros y Hy. apply list_elem_of_singleton in Hy. lia.
  - destruct (IH (Z.min x a)) as [Hin Hle]. split.
    + apply elem_of_cons in Hin as [Heq | Hin].
      * rewrite Heq. destruct (Z.min_spec x a) as [[_ ->] | [_ ->]];
          [left | right; left].
      * do 2 right. exact Hin.
    + intros y Hy.
      assert (Hmin : foldl Z.min (Z.min x a) l <= Z.min x a) by (apply Hle; left).
      apply elem_of_cons in Hy as [-> | Hy]; [lia|].
      apply elem_of_cons in Hy as [-> | Hy]; [lia|].
      apply Hle. right. exact Hy.
Qed.

Lemma foldl_max_spec (l : list Z) : forall x,
  foldl Z.max x l ∈ x :: l /\ forall y, y ∈ x :: l -> y <= foldl Z.max x l.
Proof.
  induction l as [|a l IH]; intros x; simpl.
  - split; [left|]. intros y Hy. apply list_elem_of_singleton in Hy. lia.
  - destruct (IH (Z.max x a)) as [Hin Hle]. split.
    + apply elem_of_cons in Hin as [Heq | Hin].
      * rewrite Heq. destruct (Z.max_spec x a) as [[_ ->] | [_ ->]];
          [right; left | left].
      * do 2 right. exact Hin.
    + intros y Hy.
      assert (Hmax : Z.max x a <= foldl Z.max (Z.max x a) l) by (apply Hle; left).
      apply elem_of_cons in Hy as [-> | Hy]; [lia|].
      apply elem_of_cons in Hy as [-> | Hy]; [lia|].
      apply Hle. right. exact Hy.
Qed.

(** [py_min] and [py_max] never raise on a non-empty list and return an
    extremal element of it. *)
Lemma py_min_spec (l : list Z) (self : Elevator) :
  l <> [] ->
  exists m, py_min l self = Ok (m, self) /\ m ∈ l /\ forall y, y ∈ l -> m <= y.
Proof.
  destruct l as [|x l]; [congruence|]. intros _.
  exists (foldl Z.min x l). split; [reflexivity|]. apply foldl_min_spec.
Qed.

Lemma py_max_spec (l : list Z) (self : Elevator) :
  l <> [] ->
  exists m, py_max l self = Ok (m, self) /\ m ∈ l /\ forall y, y ∈ l -> y <= m.
Proof.
  destruct l as [|x l]; [congruence|]. intros _.
  exists (foldl Z.max x l). split; [reflexivity|]. apply foldl_max_spec.
Qed.

End Extrema.

Section Dispatch.

Implicit Types (e : Elevator) (depth : nat).

Lemma elem_of_floors_above e f :
  f ∈ floors_above e <-> f ∈ requested_floors e /\ f > current_floor e.
Proof.
  unfold floors_above. rewrite list_elem_of_filter, elem_of_elements. tauto.
Qed.

Lemma elem_of_floors_below e f :
  f ∈ floors_below e <-> f ∈ requested_floors e /\ f < current_floor e.
Proof.
  unfold floors_below. rewrite list_elem_of_filter, elem_of_elements. tauto.
Qed.

Lemma floors_above_nonempty e :
  floors_above e <> [] <-> exists f, f ∈ requested_floors e /\ f > current_floor e.
Proof.
  split.
  - destruct (floors_above e) as [|f l] eqn:E; [congruence|]. intros _.
    exists f. apply elem_of_floors_above. rewrite E. left.
  - intros (f & Hf) E. apply elem_of_floors_above in Hf.
    rewrite E in Hf. inversion Hf.
Qed.

Lemma floors_below_nonempty e :
  floors_below e <> [] <-> exists f, f ∈ requested_floors e /\ f < current_floor e.
Proof.
  split.
  - destruct (floors_below e) as [|f l] eqn:E; [congruence|]. intros _.
    exists f. apply elem_of_floors_below. rewrite E. left.
  - intros (f & Hf) E. apply elem_of_floors_below in Hf.
    rewrite E in Hf. inversion Hf.
Qed.

(** One call of [_get_next_floor], read as a function of the object. *)
Lemma get_next_floor_unfold depth e :
  _get_next_floor (S depth) e =
  if bool_decide (requested_floors e = ∅) then Ok (None, e)
  else match direction e with
       | UP =>
         if bool_decide (floors_above e = [])
         then _get_next_floor depth (set_direction DOWN e)
         else match py_min (floors_above e) e with
              | Ok (m, e') => Ok (Some m, e')
              | Raise x => Raise x
              end
       | DOWN =>
         if bool_decide (floors_below e = [])
         then _get_next_floor depth (set_direction UP e)
         else match py_max (floors_below e) e with
              | Ok (m, e') => Ok (Some m, e')
              | Raise x => Raise x
              end
       | IDLE =>
         match py_min (elements (requested_floors e)) e with
         | Ok (first, e') =>
           _get_next_floor depth
             (set_direction (if bool_decide (first > current_floor e') then UP else DOWN) e')
         | Raise x => Raise x
         end
       end.
Proof.
  unfold floors_above, floors_below. cbn [_get_next_floor]. run.
  destruct (bool_decide (requested_floors e = ∅)) eqn:Hempty; [reflexivity|].
  destruct (direction e).
  - destruct (bool_decide (_ = [])); reflexivity.
  - destruct (bool_decide (_ = [])); reflexivity.
  - apply bool_decide_eq_false_1 in Hempty.
    rewrite bool_decide_eq_true_2 by exact Hempty.
    destruct (elements (requested_floors e)); reflexivity.
Qed.

Lemma get_next_floor_up_hit depth e :
  direction e = UP -> floors_above e <> [] ->
  exists m, _get_next_floor (S depth) e = Ok (Some m, e) /\ is_min_above e m.
Proof.
  intros Hd Hne. rewrite get_next_floor_unfold, Hd.
  assert (Hreq : requested_floors e <> ∅).
  { apply floors_above_nonempty in Hne as (f & Hf & _). set_solver. }
  rewrite (bool_decide_eq_false_2 _ Hreq), (bool_decide_eq_false_2 _ Hne).
  destruct (py_min_spec (floors_above e) e Hne) as (m & -> & Hin & Hle).
  exists m. split; [reflexivity|].
  apply elem_of_floors_above in Hin as [Hin Hgt].
  repeat split; [exact Hin | exact Hgt |].
  intros f Hf Hfgt. apply Hle, elem_of_floors_above. auto.
Qed.

Lemma get_next_floor_down_hit depth e :
  direction e = DOWN -> floors_below e <> [] ->
  exists m, _get_next_floor (S depth) e = Ok (Some m, e) /\ is_max_below e m.
Proof.
  intros Hd Hne. rewrite get_next_floor_unfold, Hd.
  assert (Hreq : requested_floors e <> ∅).
  { apply floors_below_nonempty in Hne as (f & Hf & _). set_solver. }
  rewrite (bool_decide_eq_false_2 _ Hreq), (bool_decide_eq_false_2 _ Hne).
  destruct (py_max_spec (floors_below e) e Hne) as (m & -> & Hin & Hle).
  exists m. split; [reflexivity|].
  apply elem_of_floors_below in Hin as [Hin Hlt].
  repeat split; [exact Hin | exact Hlt |].
  intros f Hf Hflt. apply Hle, elem_of_floors_below. auto.
Qed.

Lemma get_next_floor_up_flip depth e :
  direction e = UP -> requested_floors e <> ∅ -> floors_above e = [] ->
  _get_next_floor (S depth) e = _get_next_floor depth (set_direction DOWN e).
Proof.
  intros Hd Hreq He. rewrite get_next_floor_unfold, Hd.
  rewrite (bool_decide_eq_false_2 _ Hreq), (bool_decide_eq_true_2 _ He).
  reflexivity.
Qed.

Lemma get_next_floor_down_flip depth e :
  direction e = DOWN -> requested_floors e <> ∅ -> floors_below e = [] ->
  _get_next_floor (S depth) e = _get_next_floor depth (set_direction UP e).
Proof.
  intros Hd Hreq He. rewrite get_next_floor_unfold, Hd.
  rewrite (bool_decide_eq_false_2 _ Hreq), (bool_decide_eq_true_2 _ He).
  reflexivity.
Qed.

(** What any normal return of [_get_next_floor] looks like: only the
    direction field may have changed; a returned floor is a pending floor
    other than the current one and the direction is then Up or Down;
    "none" is returned only for an empty set, with the object untouched. *)
Lemma get_next_floor_result depth : forall e n e',
  _get_next_floor depth e = Ok (n, e') ->
  e' = set_direction (direction e') e /\
  match n with
  | Some m => m ∈ requested_floors e /\ m <> current_floor e /\ direction e' <> IDLE
  | None => requested_floors e = ∅ /\ e' = e
  end.
Proof.
  induction depth as [|depth IH]; intros e n e' H; [discriminate|].
  rewrite get_next_floor_unfold in H.
  destruct (bool_decide (requested_floors e = ∅)) eqn:Hempty.
  { apply bool_decide_eq_true_1 in Hempty. inversion H; subst.
    split; [destruct e'; reflexivity | auto]. }
  destruct (direction e) eqn:Hd.
  - destruct (bool_decide (floors_above e = [])) eqn:Ha.
    + apply IH in H as [He' Hn]. split; [rewrite He'; reflexivity|].
      destruct n; [exact Hn|]. destruct Hn as [Hn _].
      apply bool_decide_eq_false_1 in Hempty. contradiction.
    + apply bool_decide_eq_false_1 in Ha.
      destruct (py_min_spec (floors_above e) e Ha) as (m & Hm & Hin & _).
      rewrite Hm in H. inversion H; subst.
      apply elem_of_floors_above in Hin as [Hin Hgt].
      split; [destruct e'; simpl in *; subst; reflexivity|].
      repeat split; [exact Hin | lia | congruence].
  - destruct (bool_decide (floors_below e = [])) eqn:Hb.
    + apply IH in H as [He' Hn]. split; [rewrite He'; reflexivity|].
      destruct n; [exact Hn|]. destruct Hn as [Hn _].
      apply bool_decide_eq_false_1 in Hempty. contradiction.
    + apply bool_decide_eq_false_1 in Hb.
      destruct (py_max_spec (floors_below e) e Hb) as (m & Hm & Hin & _).
      rewrite Hm in H. inversion H; subst.
      apply elem_of_floors_below in Hin as [Hin Hlt].
      split; [destruct e'; simpl in *; subst; reflexivity|].
      repeat split; [exact Hin | lia | congruence].
  - destruct (py_min (elements (requested_floors e)) e) as [[first e1]|x] eqn:Hmin;
      [|discriminate].
    assert (e1 = e) as ->.
    { destruct (elements (requested_floors e)); inversion Hmin; reflexivity. }
    apply IH in H as [He' Hn]. split; [rewrite He'; reflexivity|].
    destruct n; [exact Hn|]. destruct Hn as [Hn _].
    apply bool_decide_eq_false_1 in Hempty. contradiction.
Qed.

(** The policy returns a floor, within three nested calls, as soon as
    some pending floor differs from the current floor. *)
Lemma get_next_floor_returns depth e :
  (3 <= depth)%nat ->
  (exists f, f ∈ requested_floors e /\ f <> current_floor e) ->
  exists m e', _get_next_floor depth e = Ok (Some m, e').
Proof.
  intros Hdepth (f & Hf & Hne).
  destruct depth as [|[|[|depth]]]; try lia. clear Hdepth.
  assert (Hreq : requested_floors e <> ∅) by set_solver.
  assert (Hside : floors_above e <> [] \/ floors_below e <> []).
  { destruct (Z.lt_total f (current_floor e)) as [Hlt | [Heq | Hgt]]; [| congruence |].
    - right. apply floors_below_nonempty. eauto.
    - left. apply floors_above_nonempty. exists f. split; [exact Hf | lia]. }
  assert (Hup : forall d e0, e0 = set_direction UP e ->
            exists m e', _get_next_floor (S (S d)) e0 = Ok (Some m, e')).
  { intros d e0 ->. destruct (decide (floors_above e = [])) as [Ha | Ha].
    - rewrite get_next_floor_up_flip by (try reflexivity; assumption).
      destruct Hside as [Hs | Hs]; [contradiction|].
      destruct (get_next_floor_down_hit d (set_direction DOWN (set_direction UP e)))
        as (m & Hm & _); [reflexivity | exact Hs |]. eauto.
    - destruct (get_next_floor_up_hit (S d) (set_direction UP e))
        as (m & Hm & _); [reflexivity | exact Ha |]. eauto. }
  assert (Hdown : forall d e0, e0 = set_direction DOWN e ->
            exists m e', _get_next_floor (S (S d)) e0 = Ok (Some m, e')).
  { intros d e0 ->. destruct (decide (floors_below e = [])) as [Hb | Hb].
    - rewrite get_next_floor_down_flip by (try reflexivity; assumption).
      destruct Hside as [Hs | Hs]; [|contradiction].
      destruct (get_next_floor_up_hit d (set_direction UP (set_direction DOWN e)))
        as (m & Hm & _); [reflexivity | exact Hs |]. eauto.
    - destruct (get_next_floor_down_hit (S d) (set_direction DOWN e))
        as (m & Hm & _); [reflexivity | exact Hb |]. eauto. }
  destruct (direction e) eqn:Hd.
  - apply Hup. destruct e; simpl in *; subst; reflexivity.
  - apply Hdown. destruct e; simpl in *; subst; reflexivity.
  - rewrite get_next_floor_unfold, Hd, (bool_decide_eq_false_2 _ Hreq).
    destruct (py_min_spec (elements (requested_floors e)) e) as (first & -> & _).
    { intros E. apply elements_empty_iff in E. set_solver. }
    destruct (bool_decide (first > current_floor e)); [apply Hup | apply Hdown];
      reflexivity.
Qed.

(** When the only pending floor is the current floor, every call flips
    the direction and calls again: no recursion depth is enough. *)
Lemma get_next_floor_only_current depth : forall e,
  requested_floors e = {[current_floor e]} ->
  _get_next_floor depth e = Raise RecursionError.
Proof.
  induction depth as [|depth IH]; intros e Hreq; [reflexivity|].
  assert (Hne : requested_floors e <> ∅).
  { rewrite Hreq. apply non_empty_singleton_L. }
  assert (Ha : floors_above e = []).
  { unfold floors_above. rewrite Hreq, elements_singleton, filter_cons.
    rewrite decide_False by lia. reflexivity. }
  assert (Hb : floors_below e = []).
  { unfold floors_below. rewrite Hreq, elements_singleton, filter_cons.
    rewrite decide_False by lia. reflexivity. }
  rewrite get_next_floor_unfold, (bool_decide_eq_false_2 _ Hne).
  destruct (direction e).
  - rewrite (bool_decide_eq_true_2 _ Ha). apply IH. exact Hreq.
  - rewrite (bool_decide_eq_true_2 _ Hb). apply IH. exact Hreq.
  - rewrite Hreq, elements_singleton. simpl. apply IH. exact Hreq.
Qed.

End Dispatch.

(** C1: with direction Up and a non-empty pending set, [_get_next_floor]
    returns the minimum pending floor strictly above the current floor when
    there is one, the object unchanged; when there is none but some pending
    floor is below, it sets the direction to Down and returns the maximum
    pending floor strictly below.  Symmetrically for Down.  Two nested
    calls are all it takes. *)
Theorem get_next_floor_scan (depth : nat) (e : Elevator) :
  (2 <= depth)%nat ->
  requested_floors e <> ∅ ->
  (direction e = UP ->
     ((exists f, f ∈ requested_floors e /\ f > current_floor e) ->
        exists m, _get_next_floor depth e = Ok (Some m, e) /\ is_min_above e m) /\
     (~ (exists f, f ∈ requested_floors e /\ f > current_floor e) ->
      (exists f, f ∈ requested_floors e /\ f < current_floor e) ->
        exists m, _get_next_floor depth e = Ok (Some m, set_direction DOWN e) /\
                  direction (set_direction DOWN e) = DOWN /\ is_max_below e m)) /\
  (direction e = DOWN ->
     ((exists f, f ∈ requested_floors e /\ f < current_floor e) ->
        exists m, _get_next_floor depth e = Ok (Some m, e) /\ is_max_below e m) /\
     (~ (exists f, f ∈ requested_floors e /\ f < current_floor e) ->
      (exists f, f ∈ requested_floors e /\ f > current_floor e) ->
        exists m, _get_next_floor depth e = Ok (Some m, set_direction UP e) /\
                  direction (set_direction UP e) = UP /\ is_min_above e m)).
Proof.
  intros Hdepth Hreq. destruct depth as [|[|depth]]; try lia. clear Hdepth.
  split; intros Hd; split.
  - intros Hex. apply get_next_floor_up_hit; [exact Hd|].
    apply floors_above_nonempty. exact Hex.
  - intros Hnone Hex.
    assert (Ha : floors_above e = []).
    { destruct (decide (floors_above e = [])) as [E | E]; [exact E|].
      apply floors_above_nonempty in E. contradiction. }
    rewrite get_next_floor_up_flip by assumption.
    destruct (get_next_floor_down_hit depth (set_direction DOWN e)) as (m & Hm & Hmax).
    + reflexivity.
    + apply floors_below_nonempty. exact Hex.
    + exists m. split; [exact Hm|]. split; [reflexivity | exact Hmax].
  - intros Hex. apply get_next_floor_down_hit; [exact Hd|].
    apply floors_below_nonempty. exact Hex.
  - intros Hnone Hex.
    assert (Hb : floors_below e = []).
    { destruct (decide (floors_below e = [])) as [E | E]; [exact E|].
      apply floors_below_nonempty in E. contradiction. }
    rewrite get_next_floor_down_flip by assumption.
    destruct (get_next_floor_up_hit depth (set_direction UP e)) as (m & Hm & Hmin).
    + reflexivity.
    + apply floors_above_nonempty. exact Hex.
    + exists m. split; [exact Hm|]. split; [reflexivity | exact Hmin].
Qed.

Lemma get_next_floor_scan_witness :
  (exists m, _get_next_floor 2 (scenario 5 UP [3; 8; 10])
             = Ok (Some m, scenario 5 UP [3; 8; 10]) /\
             is_min_above (scenario 5 UP [3; 8; 10]) m) /\
  (exists m, _get_next_floor 2 (scenario 12 UP [3; 8])
             = Ok (Some m, set_direction DOWN (scenario 12 UP [3; 8])) /\
             direction (set_direction DOWN (scenario 12 UP [3; 8])) = DOWN /\
             is_max_below (scenario 12 UP [3; 8]) m).
Proof.
  split.
  - apply (get_next_floor_scan 2 (scenario 5 UP [3; 8; 10])).
    + lia.
    + intros E. apply (not_elem_of_empty (C := gset Z) 3).
      rewrite <- E. apply elem_of_list_to_set. left.
    + reflexivity.
    + exists 8. split; [|simpl; lia].
      apply elem_of_list_to_set. right. left.
  - apply (get_next_floor_scan 2 (scenario 12 UP [3; 8])).
    + lia.
    + intros E. apply (not_elem_of_empty (C := gset Z) 3).
      rewrite <- E. apply elem_of_list_to_set. left.
    + reflexivity.
    + intros (f & Hf & Hgt). cbn [scenario requested_floors set_requested_floors] in Hf.
      simpl in Hgt. apply elem_of_list_to_set in Hf.
      repeat (apply elem_of_cons in Hf as [-> | Hf]; [lia|]). inversion Hf.
    + exists 8. split; [|simpl; lia].
      apply elem_of_list_to_set. right. left.
Defined.

(** ** The elevator's operations, as functions of the object *)

Section Operations.

Implicit Types (e : Elevator) (f : Z) (c : ElevatorConfig).

Lemma foldl_insert_lookup (B : Z -> Button) (l : list Z) : forall (m0 : gmap Z Button) f,
  foldl (fun m k => <[k := B k]> m) m0 l !! f =
  if decide (f ∈ l) then Some (B f) else m0 !! f.
Proof.
  induction l as [|a l IH]; intros m0 f; cbn [foldl].
  - destruct (decide (f ∈ [])) as [Hin | _]; [inversion Hin | reflexivity].
  - rewrite IH. destruct (decide (f ∈ l)) as [Hin | Hnin].
    + destruct (decide (f ∈ a :: l)) as [_ | Hn]; [reflexivity|].
      exfalso. apply Hn. right. exact Hin.
    + destruct (decide (f = a)) as [-> | Hne].
      * destruct (decide (a ∈ a :: l)) as [_ | Hn]; [apply lookup_insert_eq|].
        exfalso. apply Hn. left.
      * destruct (decide (f ∈ a :: l)) as [Hin | _].
        { apply elem_of_cons in Hin. tauto. }
        apply lookup_insert_ne. congruence.
Qed.

(** [__init__] creates exactly the buttons of the configured floors, all
    released and none stuck. *)
Lemma init_buttons c id f :
  floor_buttons (Elevator_init c id) !! f =
  if decide (min_floors c <= f <= max_floors c) then Some (Button_init f) else None.
Proof.
  cbn [Elevator_init floor_buttons]. rewrite foldl_insert_lookup. unfold floor_range.
  destruct (decide (min_floors c <= f <= max_floors c)) as [Hin | Hout];
    destruct (decide (f ∈ seqZ (min_floors c) (max_floors c + 1 - min_floors c)))
      as [Hs | Hs]; try reflexivity.
  - exfalso. apply Hs, elem_of_seqZ. lia.
  - apply elem_of_seqZ in Hs. lia.
Qed.

(** Every normal return of [press_floor_button]: either the request is
    rejected and nothing changes, or the floor is within bounds, its
    button exists and is not stuck, and the object is updated. *)
Lemma press_floor_button_cases e f (r : bool) e' :
  press_floor_button f e = Ok (r, e') ->
  (r = false /\ e' = e) \/
  (r = true /\ min_floors (config e) <= f <= max_floors (config e) /\
   exists b, floor_buttons e !! f = Some b /\ is_stuck b = false /\
     e' = mkElevator (config e) (elevator_id e) (current_floor e)
            (if bool_decide (direction e = IDLE)
             then (if bool_decide (f > current_floor e) then UP else DOWN)
             else direction e)
            (door e) ({[f]} ∪ requested_floors e)
            (<[f := snd (press b)]> (floor_buttons e)) (floors e)).
Proof.
  unfold press_floor_button. run.
  destruct (bool_decide (min_floors (config e) <= f <= max_floors (config e))) eqn:Hin;
    simpl; [|intros H; inversion H; auto].
  apply bool_decide_eq_true_1 in Hin.
  destruct (floor_buttons e !! f) as [b|] eqn:Hf; [|discriminate].
  unfold press. destruct (is_stuck b) eqn:Hs; simpl.
  - intros H. inversion H; subst. left. split; [reflexivity|].
    apply elevator_eq; simpl; try reflexivity. apply insert_id. exact Hf.
  - intros H. right. split; [|split; [exact Hin|]].
    + destruct (bool_decide (direction e = IDLE)); inversion H; reflexivity.
    + exists b. rewrite Hs. repeat split; try assumption.
      destruct (bool_decide (direction e = IDLE)); inversion H; reflexivity.
Qed.

Lemma move_steps_up (n : nat) : forall e,
  direction e = UP ->
  Nat.iter n move_step e = set_current_floor (current_floor e + Z.of_nat n) e.
Proof.
  induction n as [|n IH]; intros e Hd.
  - simpl. rewrite Z.add_0_r. destruct e; reflexivity.
  - rewrite Nat.iter_succ, IH by exact Hd. unfold move_step. simpl.
    rewrite bool_decide_eq_true_2 by exact Hd.
    unfold set_current_floor. simpl. f_equal. lia.
Qed.

Lemma move_steps_down (n : nat) : forall e,
  direction e <> UP ->
  Nat.iter n move_step e = set_current_floor (current_floor e - Z.of_nat n) e.
Proof.
  induction n as [|n IH]; intros e Hd.
  - simpl. rewrite Z.sub_0_r. destruct e; reflexivity.
  - rewrite Nat.iter_succ, IH by exact Hd. unfold move_step. simpl.
    rewrite bool_decide_eq_false_2 by exact Hd.
    unfold set_current_floor. simpl. f_equal. lia.
Qed.

(** [move_to_floor] ends exactly at its target, whatever the target. *)
Lemma move_to_floor_spec (target : Z) e :
  move_to_floor target e =
  if bool_decide (target = current_floor e) then e
  else set_current_floor target
         (set_direction (if bool_decide (target > current_floor e) then UP else DOWN) e).
Proof.
  unfold move_to_floor.
  destruct (bool_decide (target = current_floor e)) eqn:Heq; [reflexivity|].
  apply bool_decide_eq_false_1 in Heq.
  destruct (bool_decide (target > current_floor e)) eqn:Hgt.
  - apply bool_decide_eq_true_1 in Hgt.
    rewrite move_steps_up by reflexivity.
    unfold set_current_floor, set_direction. simpl. f_equal. lia.
  - apply bool_decide_eq_false_1 in Hgt.
    rewrite move_steps_down by discriminate.
    unfold set_current_floor, set_direction. simpl. f_equal. lia.
Qed.

(** The door after [process_next_request]'s open-then-close sequence. *)
Lemma open_close_closed (d : ElevatorDoor) :
  let d1 := if negb (is_open d) then open d else d in
  (if negb (is_closed d1) then close d1 else d1) = mkDoor CLOSED.
Proof. destruct d as [[]]; reflexivity. Qed.

(** Every normal return of [process_next_request]: either nothing was
    pending and the direction is set to Idle, or a pending floor other
    than the current one was serviced: the car is there, the direction is
    the direction of that last movement, the door is closed again, the
    floor's button is released and the floor is no longer pending. *)
Lemma process_next_request_cases (depth : nat) e (r : bool) e' :
  process_next_request depth e = Ok (r, e') ->
  (r = false /\ requested_floors e = ∅ /\ e' = set_direction IDLE e) \/
  (r = true /\ exists m b,
     m ∈ requested_floors e /\ m <> current_floor e /\
     floor_buttons e !! m = Some b /\
     e' = mkElevator (config e) (elevator_id e) m
            (if bool_decide (m > current_floor e) then UP else DOWN)
            (mkDoor CLOSED) (requested_floors e ∖ {[m]})
            (<[m := release b]> (floor_buttons e)) (floors e)).
Proof.
  unfold process_next_request. unfold mbind at 1. unfold M_bind at 1.
  destruct (_get_next_floor depth e) as [[n e1]|x] eqn:Hg; [|discriminate].
  apply get_next_floor_result in Hg as [He1 Hn].
  destruct n as [m|].
  - destruct Hn as (Hin & Hne & _).
    assert (exists d1, e1 = set_direction d1 e) as [d1 ->] by eauto. clear He1.
    destruct e as [c id cur dir [ds] req btn fl].
    cbn [requested_floors current_floor floor_buttons] in Hin, Hne |- *.
    run. rewrite move_to_floor_spec. cbn.
    rewrite (bool_decide_eq_false_2 _ Hne).
    destruct ds; unfold is_open, is_closed, open, close; simpl;
      rewrite (bool_decide_eq_true_2 _ Hin); simpl;
      (destruct (btn !! m) as [b|] eqn:Hb; [|discriminate]); simpl;
      intros H; inversion H; subst; right; (split; [reflexivity|]);
      exists m, b; repeat split; assumption.
  - destruct Hn as [Hempty ->]. run. intros H. inversion H. left. auto.
Qed.

End Operations.

(** ** Termination of the dispatch query *)

(** C2 (the code departs from it): on a fresh elevator, standing at floor
    1, [press_floor_button 1] is accepted and leaves floor 1 as the only
    pending floor.  From there [_get_next_floor] never returns: whatever
    the recursion limit, it ends in [RecursionError], and so does
    [process_next_request]. *)
Theorem get_next_floor_recursion_at_current_floor :
  let e := after (press_floor_button 1) fresh in
  press_floor_button 1 fresh = Ok (true, e) /\
  requested_floors e = {[1]} /\ current_floor e = 1 /\
  forall depth,
    _get_next_floor depth e = Raise RecursionError /\
    process_next_request depth e = Raise RecursionError.
Proof.
  cbv zeta.
  assert (Hreq : requested_floors (after (press_floor_button 1) fresh) = {[1]})
    by (vm_compute; reflexivity).
  split; [vm_compute; reflexivity|].
  split; [exact Hreq|]. split; [reflexivity|].
  intros depth.
  assert (Hg : _get_next_floor depth (after (press_floor_button 1) fresh)
               = Raise RecursionError).
  { apply get_next_floor_only_current. exact Hreq. }
  split; [exact Hg|].
  unfold process_next_request. unfold mbind at 1. unfold M_bind at 1.
  rewrite Hg. reflexivity.
Qed.

(** ** Pending floors stay within the configured bounds *)

Section RequestsInBounds.

Lemma requests_in_bounds_init (c : ElevatorConfig) (id : string) :
  requests_in_bounds (Elevator_init c id).
Proof. intros f Hf. simpl in Hf. apply not_elem_of_empty in Hf. contradiction. Qed.

Lemma requests_in_bounds_press (e : Elevator) (f : Z) (r : bool) (e' : Elevator) :
  requests_in_bounds e -> press_floor_button f e = Ok (r, e') ->
  requests_in_bounds e'.
Proof.
  intros Hinv H.
  apply press_floor_button_cases in H as [[_ ->] | (_ & Hb & b & _ & _ & ->)];
    [exact Hinv|].
  intros g Hg. simpl in Hg |- *.
  apply elem_of_union in Hg as [Hg | Hg]; [|apply Hinv; exact Hg].
  apply elem_of_singleton in Hg. subst g. exact Hb.
Qed.

Lemma requests_in_bounds_random (e : Elevator) (rf : Z) :
  requests_in_bounds e ->
  min_floors (config e) <= rf <= max_floors (config e) ->
  requests_in_bounds (add_random_stop rf e).
Proof.
  intros Hinv Hrf. unfold add_random_stop.
  destruct (bool_decide (_ < _)); [|exact Hinv].
  destruct (bool_decide (rf <> _)); [|exact Hinv].
  intros g Hg. simpl in Hg |- *.
  apply elem_of_union in Hg as [Hg | Hg]; [|apply Hinv; exact Hg].
  apply elem_of_singleton in Hg. subst g. exact Hrf.
Qed.

End RequestsInBounds.

(** C10: every pending floor lies within the configured bounds: this holds
    in the initial state and is preserved by [press_floor_button] and by
    [add_random_stop] (whose draw comes from the configured range). *)
Theorem requests_in_bounds_invariant :
  (forall c id, requests_in_bounds (Elevator_init c id)) /\
  (forall e f (r : bool) e',
     requests_in_bounds e -> press_floor_button f e = Ok (r, e') ->
     requests_in_bounds e') /\
  (forall e rf,
     requests_in_bounds e ->
     min_floors (config e) <= rf <= max_floors (config e) ->
     requests_in_bounds (add_random_stop rf e)).
Proof.
  split; [|split].
  - exact requests_in_bounds_init.
  - exact requests_in_bounds_press.
  - exact requests_in_bounds_random.
Qed.

Lemma requests_in_bounds_invariant_witness :
  requests_in_bounds (add_random_stop 7 (after (press_floor_button 4) fresh)).
Proof.
  destruct requests_in_bounds_invariant as (Hinit & Hpress & Hrand).
  apply Hrand.
  - apply (Hpress fresh 4 true); [apply Hinit | vm_compute; reflexivity].
  - vm_compute. split; discriminate.
Defined.

(** [process_next_request] only removes from the pending set. *)
Lemma requests_in_bounds_process (depth : nat) (e : Elevator) (r : bool) (e' : Elevator) :
  requests_in_bounds e -> process_next_request depth e = Ok (r, e') ->
  requests_in_bounds e'.
Proof.
  intros Hinv H.
  apply process_next_request_cases in H as [(_ & _ & ->) | (_ & m & b & _ & _ & _ & ->)];
    [exact Hinv|].
  intros g Hg. simpl in Hg |- *. apply Hinv.
  apply elem_of_difference in Hg as [Hg _]. exact Hg.
Qed.

(** ** Pending floors and pressed buttons *)

Section RequestsPressed.

Lemma requests_pressed_init (c : ElevatorConfig) (id : string) :
  requests_pressed (Elevator_init c id).
Proof. intros f Hf. simpl in Hf. apply not_elem_of_empty in Hf. contradiction. Qed.

Lemma requests_pressed_press (e : Elevator) (f : Z) (r : bool) (e' : Elevator) :
  requests_pressed e -> press_floor_button f e = Ok (r, e') -> requests_pressed e'.
Proof.
  intros Hinv H.
  apply press_floor_button_cases in H as [[_ ->] | (_ & _ & b & Hb & Hs & ->)];
    [exact Hinv|].
  intros g Hg. simpl in Hg |- *.
  destruct (decide (g = f)) as [-> | Hne].
  - rewrite lookup_insert_eq. eexists. split; [reflexivity|].
    unfold press. rewrite Hs. reflexivity.
  - rewrite lookup_insert_ne by congruence. apply Hinv.
    apply elem_of_union in Hg as [Hg | Hg]; [|exact Hg].
    apply elem_of_singleton in Hg. contradiction.
Qed.

Lemma requests_pressed_process (depth : nat) (e : Elevator) (r : bool) (e' : Elevator) :
  requests_pressed e -> process_next_request depth e = Ok (r, e') ->
  requests_pressed e'.
Proof.
  intros Hinv H.
  apply process_next_request_cases in H as [(_ & _ & ->) | (_ & m & b & _ & _ & _ & ->)];
    [exact Hinv|].
  intros g Hg. simpl in Hg |- *.
  apply elem_of_difference in Hg as [Hg Hne].
  rewrite lookup_insert_ne; [apply Hinv; exact Hg|].
  intros ->. apply Hne, elem_of_singleton. reflexivity.
Qed.

End RequestsPressed.

(** C4 (the code departs from it): a fresh elevator has every pending
    floor's button pressed (no floor is pending); after [add_random_stop]
    draws floor 7, floor 7 is pending and its button is still released.
    [press_floor_button] and [process_next_request] keep the predicate
    ([requests_pressed_press], [requests_pressed_process]). *)
Theorem add_random_stop_leaves_button_released :
  requests_pressed fresh /\
  7 ∈ requested_floors (add_random_stop 7 fresh) /\
  floor_buttons (add_random_stop 7 fresh) !! 7 = Some (Button_init 7) /\
  is_pressed (Button_init 7) = false /\
  ~ requests_pressed (add_random_stop 7 fresh).
Proof.
  assert (Hin : 7 ∈ requested_floors (add_random_stop 7 fresh)).
  { change (7 ∈ ({[7]} ∪ ∅ : gset Z)). apply elem_of_union_l, elem_of_singleton.
    reflexivity. }
  assert (Hb : floor_buttons (add_random_stop 7 fresh) !! 7 = Some (Button_init 7)).
  { change (floor_buttons (Elevator_init default_config "A") !! 7 = Some (Button_init 7)).
    rewrite init_buttons. reflexivity. }
  split; [apply requests_pressed_init|].
  split; [exact Hin|]. split; [exact Hb|]. split; [reflexivity|].
  intros Hinv. destruct (Hinv 7 Hin) as (b & Hb' & Hp).
  rewrite Hb in Hb'. inversion Hb'; subst b. discriminate.
Qed.

(** ** Direction Idle and the empty pending set *)

(** C3 (the code departs from it): pressing floor 2 on a fresh elevator
    and servicing it with [process_next_request] leaves the pending set
    empty with direction Up; and [add_random_stop] on a fresh (Idle)
    elevator leaves it Idle with a pending floor.  The sibling paths keep
    the predicate: [InteractiveElevatorMode._move_to_floor] sets Idle as
    soon as it has serviced the last pending floor, and
    [press_floor_button] resolves the direction when it adds a floor. *)
Lemma idle_iff_empty_not_preserved :
  let e1 := after (press_floor_button 2) fresh in
  let e2 := after (process_next_request 3) e1 in
  (idle_iff_empty fresh /\
   press_floor_button 2 fresh = Ok (true, e1) /\ idle_iff_empty e1 /\
   process_next_request 3 e1 = Ok (true, e2) /\
   requested_floors e2 = ∅ /\ direction e2 = UP /\ ~ idle_iff_empty e2) /\
  (direction (add_random_stop 7 fresh) = IDLE /\
   7 ∈ requested_floors (add_random_stop 7 fresh) /\
   ~ idle_iff_empty (add_random_stop 7 fresh)).
Proof.
  cbv zeta. split.
  - split; [split; reflexivity|].
    split; [vm_compute; reflexivity|].
    split.
    { split; [discriminate|]. intros E. exfalso.
      apply (not_elem_of_empty (C := gset Z) 2). rewrite <- E.
      change (2 ∈ ({[2]} ∪ ∅ : gset Z)). apply elem_of_union_l, elem_of_singleton.
      reflexivity. }
    split; [vm_compute; reflexivity|].
    assert (Hreq : requested_floors
              (after (process_next_request 3) (after (press_floor_button 2) fresh)) = ∅)
      by (vm_compute; reflexivity).
    assert (Hd : direction
              (after (process_next_request 3) (after (press_floor_button 2) fresh)) = UP)
      by (vm_compute; reflexivity).
    split; [exact Hreq|]. split; [exact Hd|].
    intros [_ Hinv]. specialize (Hinv Hreq). rewrite Hd in Hinv. discriminate.
  - assert (Hin : 7 ∈ requested_floors (add_random_stop 7 fresh)).
    { change (7 ∈ ({[7]} ∪ ∅ : gset Z)). apply elem_of_union_l, elem_of_singleton.
      reflexivity. }
    split; [reflexivity|]. split; [exact Hin|].
    intros [Hinv _]. specialize (Hinv eq_refl). rewrite Hinv in Hin.
    apply not_elem_of_empty in Hin. exact Hin.
Qed.

(** Where the code keeps "direction is Idle iff nothing is pending": in
    the initial state, across [press_floor_button], across a
    [process_next_request] that finds nothing pending (it sets Idle and
    returns False) or leaves requests pending after the one it services,
    and across [add_random_stop] when the direction is not Idle.  After
    any service the direction is Up or Down, and [add_random_stop] never
    writes the direction: the two places where the predicate is lost. *)
Theorem idle_iff_empty_where_kept :
  (forall c id, idle_iff_empty (Elevator_init c id)) /\
  (forall e f (r : bool) e',
     idle_iff_empty e -> press_floor_button f e = Ok (r, e') -> idle_iff_empty e') /\
  (forall depth e e',
     process_next_request depth e = Ok (false, e') -> idle_iff_empty e') /\
  (forall depth e e',
     process_next_request depth e = Ok (true, e') ->
     direction e' <> IDLE /\ (requested_floors e' <> ∅ -> idle_iff_empty e')) /\
  (forall rf e,
     direction (add_random_stop rf e) = direction e /\
     (idle_iff_empty e -> direction e <> IDLE -> idle_iff_empty (add_random_stop rf e))).
Proof.
  split; [|split; [|split; [|split]]].
  - intros c id. split; reflexivity.
  - intros e f r e' Hinv H.
    apply press_floor_button_cases in H as [[_ ->] | (_ & _ & b & _ & _ & ->)];
      [exact Hinv|].
    unfold idle_iff_empty. simpl. split.
    + destruct (bool_decide (direction e = IDLE)) eqn:Hd.
      * destruct (bool_decide (f > current_floor e)); discriminate.
      * apply bool_decide_eq_false_1 in Hd. contradiction.
    + intros E. exfalso. apply (not_elem_of_empty (C := gset Z) f).
      rewrite <- E. apply elem_of_union_l, elem_of_singleton. reflexivity.
  - intros depth e e' H.
    apply process_next_request_cases in H as [(_ & Hempty & ->) | (Hr & _)];
      [|discriminate].
    split; intros _; [exact Hempty | reflexivity].
  - intros depth e e' H.
    apply process_next_request_cases in H as [(Hr & _) | (_ & m & b & _ & _ & _ & ->)];
      [discriminate|].
    assert (Hd : (if bool_decide (m > current_floor e) then UP else DOWN) <> IDLE)
      by (destruct (bool_decide (m > current_floor e)); discriminate).
    split; [exact Hd|]. intros Hne. split; simpl; intros E; contradiction.
  - intros rf e.
    assert (Hd : direction (add_random_stop rf e) = direction e).
    { unfold add_random_stop. destruct (bool_decide (_ < _)); [|reflexivity].
      destruct (bool_decide (rf <> _)); reflexivity. }
    split; [exact Hd|]. intros Hinv Hne. split.
    + rewrite Hd. intros E. contradiction.
    + intros E. exfalso. apply Hne, Hinv. revert E. unfold add_random_stop.
      destruct (bool_decide (_ < _)); [|auto].
      destruct (bool_decide (rf <> _)); [|auto].
      simpl. intros E. exfalso. apply (not_elem_of_empty (C := gset Z) rf).
      rewrite <- E. apply elem_of_union_l, elem_of_singleton. reflexivity.
Qed.

Lemma idle_iff_empty_where_kept_witness :
  idle_iff_empty (after (press_floor_button 2) fresh) /\
  direction (after (process_next_request 3) (after (press_floor_button 2) fresh)) <> IDLE.
Proof.
  destruct idle_iff_empty_where_kept as (Hinit & Hpress & _ & Hserve & _).
  split.
  - apply (Hpress fresh 2 true); [apply Hinit | vm_compute; reflexivity].
  - apply (Hserve 3%nat (after (press_floor_button 2) fresh)).
    vm_compute. reflexivity.
Defined.

(** ** Random stops *)

(** C8, as stated, fails: once the buttons of all fifteen floors of a fresh
    elevator have been pressed, fifteen floors are pending, one more than
    [max_floors - min_floors]; [add_random_stop] then changes nothing, and
    the size after the call is still above the cap. *)
Lemma add_random_stop_above_cap :
  requested_floors all_pressed = list_to_set (floor_range default_config) /\
  size (requested_floors all_pressed) = 15%nat /\
  max_floors (config all_pressed) - min_floors (config all_pressed) = 14 /\
  add_random_stop 3 all_pressed = all_pressed /\
  ~ within_cap (add_random_stop 3 all_pressed).
Proof.
  assert (Hsize : size (requested_floors all_pressed) = 15%nat)
    by (vm_compute; reflexivity).
  assert (Hcfg : config all_pressed = default_config) by (vm_compute; reflexivity).
  assert (Hsame : add_random_stop 3 all_pressed = all_pressed).
  { unfold add_random_stop. rewrite Hsize, Hcfg. reflexivity. }
  split; [vm_compute; reflexivity|].
  split; [exact Hsize|]. split; [rewrite Hcfg; reflexivity|].
  split; [exact Hsame|].
  unfold within_cap. rewrite Hsame, Hsize, Hcfg. simpl. lia.
Qed.

(** C8, amended: [add_random_stop] never adds the current floor; it never
    raises the number of pending floors above [max_floors - min_floors] (a
    set within the cap before the call is within it after the call, and in
    any case at most one floor is added); and when the set is at the cap,
    or above it, the call changes nothing. *)
Theorem add_random_stop_spec (rf : Z) (e : Elevator) :
  (current_floor e ∈ requested_floors (add_random_stop rf e) ->
   current_floor e ∈ requested_floors e) /\
  current_floor (add_random_stop rf e) = current_floor e /\
  (within_cap e -> within_cap (add_random_stop rf e)) /\
  (max_floors (config e) - min_floors (config e)
     <= Z.of_nat (size (requested_floors e)) ->
   add_random_stop rf e = e).
Proof.
  unfold add_random_stop, within_cap.
  destruct (bool_decide (Z.of_nat (size (requested_floors e))
                         < max_floors (config e) - min_floors (config e))) eqn:Hcap.
  - apply bool_decide_eq_true_1 in Hcap.
    destruct (bool_decide (rf <> current_floor e)) eqn:Hrf.
    + apply bool_decide_eq_true_1 in Hrf. simpl. repeat split.
      * intros Hin. apply elem_of_union in Hin as [Hin | Hin]; [|exact Hin].
        apply elem_of_singleton in Hin. congruence.
      * intros _.
        assert (Hsz : (size ({[rf]} ∪ requested_floors e) <= S (size (requested_floors e)))%nat).
        { rewrite size_union_alt, size_singleton.
          apply le_n_S, subseteq_size. intros x Hx.
          apply elem_of_difference in Hx as [Hx _]. exact Hx. }
        lia.
      * lia.
    + repeat split; auto.
  - repeat split; auto.
Qed.

Lemma add_random_stop_spec_witness :
  within_cap (add_random_stop 7 fresh) /\
  add_random_stop 3 all_pressed = all_pressed.
Proof.
  split.
  - apply (proj1 (proj2 (proj2 (add_random_stop_spec 7 fresh)))).
    vm_compute. discriminate.
  - apply (proj2 (proj2 (proj2 (add_random_stop_spec 3 all_pressed)))).
    vm_compute. discriminate.
Defined.

(** ** The current floor and the configured bounds *)

(** C9, as stated, fails: [move_to_floor] checks no bound, so from a fresh
    elevator (floors 1 to 15) [move_to_floor 16] ends at floor 16; and the
    initial floor is [min_floors], which is out of bounds when the
    configuration has [min_floors > max_floors]. *)
Lemma move_to_floor_leaves_bounds :
  (floor_in_bounds fresh /\
   current_floor (move_to_floor 16 fresh) = 16 /\
   max_floors (config (move_to_floor 16 fresh)) = 15 /\
   ~ floor_in_bounds (move_to_floor 16 fresh)) /\
  ~ floor_in_bounds (Elevator_init (mkConfig 0 1) "A").
Proof.
  split; [split; [|split; [|split]]|].
  - unfold floor_in_bounds. simpl. lia.
  - rewrite move_to_floor_spec. reflexivity.
  - rewrite move_to_floor_spec. reflexivity.
  - unfold floor_in_bounds. rewrite move_to_floor_spec. simpl. lia.
  - unfold floor_in_bounds. simpl. lia.
Qed.

(** C9, amended: the current floor is within bounds in the initial state of
    a configuration with [min_floors <= max_floors]; [press_floor_button]
    and [add_random_stop] keep it there (they do not move the car);
    [move_to_floor] ends exactly at its target, so it keeps the car within
    bounds exactly when the target is within bounds; and
    [process_next_request] keeps it within bounds when every pending floor
    is within bounds. *)
Theorem floor_in_bounds_amended :
  (forall c id, min_floors c <= max_floors c -> floor_in_bounds (Elevator_init c id)) /\
  (forall e f (r : bool) e',
     floor_in_bounds e -> press_floor_button f e = Ok (r, e') -> floor_in_bounds e') /\
  (forall e rf, floor_in_bounds e -> floor_in_bounds (add_random_stop rf e)) /\
  (forall e target,
     floor_in_bounds e ->
     current_floor (move_to_floor target e) = target /\
     (floor_in_bounds (move_to_floor target e) <->
      min_floors (config e) <= target <= max_floors (config e))) /\
  (forall depth e (r : bool) e',
     floor_in_bounds e -> requests_in_bounds e ->
     process_next_request depth e = Ok (r, e') -> floor_in_bounds e').
Proof.
  split; [|split; [|split; [|split]]].
  - intros c id Hc. unfold floor_in_bounds. simpl. lia.
  - intros e f r e' Hinv H.
    apply press_floor_button_cases in H as [[_ ->] | (_ & _ & b & _ & _ & ->)];
      exact Hinv.
  - intros e rf Hinv. unfold add_random_stop.
    destruct (bool_decide (_ < _)); [|exact Hinv].
    destruct (bool_decide (rf <> _)); exact Hinv.
  - intros e target Hinv. rewrite move_to_floor_spec. unfold floor_in_bounds in *.
    destruct (bool_decide (target = current_floor e)) eqn:Heq; simpl.
    + apply bool_decide_eq_true_1 in Heq. subst target. tauto.
    + tauto.
  - intros depth e r e' Hinv Hreq H.
    apply process_next_request_cases in H as [(_ & _ & ->) | (_ & m & b & Hin & _ & _ & ->)];
      [exact Hinv|].
    unfold floor_in_bounds. simpl. apply Hreq. exact Hin.
Qed.

Lemma floor_in_bounds_amended_witness :
  floor_in_bounds (move_to_floor 9 fresh) /\
  floor_in_bounds (after (process_next_request 3) (after (press_floor_button 4) fresh)).
Proof.
  destruct floor_in_bounds_amended as (Hinit & Hpress & _ & Hmove & Hserve).
  assert (Hfresh : floor_in_bounds fresh) by (apply Hinit; simpl; lia).
  split.
  - apply (Hmove fresh 9 Hfresh). simpl. lia.
  - apply (Hserve 3%nat (after (press_floor_button 4) fresh) true).
    + apply (Hpress fresh 4 true); [exact Hfresh | vm_compute; reflexivity].
    + apply (requests_in_bounds_press fresh 4 true);
        [apply requests_in_bounds_init | vm_compute; reflexivity].
    + vm_compute. reflexivity.
Defined.

(** ** Normal return of the public operations *)

Section NormalReturn.

Implicit Types (e : Elevator) (f : Z).

Lemma buttons_complete_init (c : ElevatorConfig) (id : string) :
  buttons_complete (Elevator_init c id).
Proof.
  intros f Hf. rewrite init_buttons.
  destruct (decide (min_floors c <= f <= max_floors c)) as [_ | Hn]; [eauto|].
  simpl in Hf. contradiction.
Qed.

Lemma buttons_complete_press e f (r : bool) e' :
  buttons_complete e -> press_floor_button f e = Ok (r, e') -> buttons_complete e'.
Proof.
  intros Hinv H.
  apply press_floor_button_cases in H as [[_ ->] | (_ & _ & b & _ & _ & ->)];
    [exact Hinv|].
  intros g Hg. simpl in Hg |- *.
  destruct (decide (g = f)) as [-> | Hne].
  - rewrite lookup_insert_eq. eauto.
  - rewrite lookup_insert_ne by congruence. apply Hinv. exact Hg.
Qed.

Lemma buttons_complete_random e (rf : Z) :
  buttons_complete e -> buttons_complete (add_random_stop rf e).
Proof.
  intros Hinv. unfold add_random_stop.
  destruct (bool_decide (_ < _)); [|exact Hinv].
  destruct (bool_decide (rf <> _)); exact Hinv.
Qed.

Lemma buttons_complete_process (depth : nat) e (r : bool) e' :
  buttons_complete e -> process_next_request depth e = Ok (r, e') ->
  buttons_complete e'.
Proof.
  intros Hinv H.
  apply process_next_request_cases in H as [(_ & _ & ->) | (_ & m & b & _ & _ & _ & ->)];
    [exact Hinv|].
  intros g Hg. simpl in Hg |- *.
  destruct (decide (g = m)) as [-> | Hne].
  - rewrite lookup_insert_eq. eauto.
  - rewrite lookup_insert_ne by congruence. apply Hinv. exact Hg.
Qed.

(** [press_floor_button] raises nothing on an elevator whose dictionary
    has a button for every floor within bounds. *)
Lemma press_floor_button_returns e f :
  buttons_complete e -> exists (r : bool) e', press_floor_button f e = Ok (r, e').
Proof.
  intros Hinv. unfold press_floor_button. run.
  destruct (bool_decide (min_floors (config e) <= f <= max_floors (config e))) eqn:Hin;
    simpl; [|eauto].
  apply bool_decide_eq_true_1 in Hin. destruct (Hinv f Hin) as [b ->].
  unfold press. destruct (is_stuck b); simpl; [eauto|].
  destruct (bool_decide (direction e = IDLE)); eauto.
Qed.

(** [process_next_request] returns normally, within three nested calls of
    the dispatch query, when nothing is pending or some pending floor
    differs from the current one; the remaining case, where the current
    floor is the only pending floor, is
    [get_next_floor_only_current]. *)
Lemma process_next_request_returns (depth : nat) e :
  (3 <= depth)%nat -> buttons_complete e -> requests_in_bounds e ->
  requested_floors e = ∅ \/
    (exists f, f ∈ requested_floors e /\ f <> current_floor e) ->
  exists (r : bool) e', process_next_request depth e = Ok (r, e').
Proof.
  intros Hdepth Hbtn Hreq [Hempty | Hex].
  - destruct depth as [|depth]; [lia|].
    unfold process_next_request. unfold mbind at 1. unfold M_bind at 1.
    rewrite get_next_floor_unfold, (bool_decide_eq_true_2 _ Hempty). run. eauto.
  - destruct (get_next_floor_returns depth e Hdepth Hex) as (m & e1 & Hg).
    pose proof (get_next_floor_result _ _ _ _ Hg) as (He1 & Hin & Hne & _).
    destruct (Hbtn m (Hreq m Hin)) as [b Hb].
    assert (exists d1, e1 = set_direction d1 e) as [d1 ->] by eauto. clear He1.
    unfold process_next_request. unfold mbind at 1. unfold M_bind at 1. rewrite Hg.
    destruct e as [c id cur dir [ds] req btn fl].
    cbn [requested_floors current_floor floor_buttons] in Hin, Hne, Hb |- *.
    run. rewrite move_to_floor_spec. cbn.
    rewrite (bool_decide_eq_false_2 _ Hne).
    destruct ds; unfold is_open, is_closed, open, close; simpl;
      rewrite (bool_decide_eq_true_2 _ Hin); simpl; rewrite Hb; simpl; eauto.
Qed.

End NormalReturn.

(** ** The full cycle of the specification, on the model *)

(** Floors 4 and 2 are pressed from floor 1: the car services 2, then 4;
    the direction is still Up after the second service and becomes Idle on
    the third call, which finds nothing pending. *)
Example full_cycle :
  let e1 := after (press_floor_button 2) (after (press_floor_button 4) fresh) in
  let e2 := after (process_next_request 3) e1 in
  let e3 := after (process_next_request 3) e2 in
  let e4 := after (process_next_request 3) e3 in
  direction e1 = UP /\
  current_floor e2 = 2 /\ current_floor e3 = 4 /\
  requested_floors e3 = ∅ /\ direction e3 = UP /\ door e3 = mkDoor CLOSED /\
  process_next_request 3 e3 = Ok (false, e4) /\ direction e4 = IDLE.
Proof. vm_compute. repeat split; reflexivity. Qed.

(** * Beyond the specification's claims: the rest of the code *)

(** ** Button and door *)

(** X1: whatever calls of [open], [close] and [force_open] a new door has
    received, it is at rest (Open or Closed, never Opening or Closing)
    between calls; so [force_open], which only acts on a Closing door,
    returns False and changes nothing. *)
Theorem force_open_never_succeeds (cs : list door_call) :
  settled (door_after cs) /\
  force_open (door_after cs) = (false, door_after cs).
Proof.
  assert (Hstep : forall d c, settled d -> settled (door_step d c)).
  { intros [s] c [H | H]; simpl in H; subst s; destruct c; unfold settled;
      simpl; auto. }
  assert (Hall : forall cs d, settled d -> settled (foldl door_step d cs)).
  { clear cs. induction cs as [|c cs IH]; intros d Hd; simpl; [exact Hd|].
    apply IH, Hstep, Hd. }
  assert (Hs : settled (door_after cs)) by (apply Hall; right; reflexivity).
  split; [exact Hs|].
  destruct (door_after cs) as [s]. destruct Hs as [H | H]; simpl in H; subst s;
    reflexivity.
Qed.

(** X2: from any of the four states, [open] ends Open and [close] ends
    Closed; both are idempotent, and a door opened then closed is
    Closed. *)
Theorem open_close_total (d : ElevatorDoor) :
  state (open d) = OPEN /\ state (close d) = CLOSED /\
  open (open d) = open d /\ close (close d) = close d /\
  close (open d) = mkDoor CLOSED /\ open (close d) = mkDoor OPEN.
Proof. destruct d as [[]]; repeat split; reflexivity. Qed.

(** X3: a stuck button rejects [press] and keeps its pressed flag as it
    was (a pressed button that gets stuck stays pressed); once unstuck,
    [press] succeeds; [release] clears the flag even on a stuck button; and
    neither [press] nor [release] touches the stuck flag or the floor. *)
Theorem button_stuck_cycle (b : Button) :
  press (set_stuck true b) = (false, set_stuck true b) /\
  is_pressed (set_stuck true b) = is_pressed b /\
  (exists b', press (set_stuck false b) = (true, b') /\ is_pressed b' = true) /\
  is_pressed (release (set_stuck true b)) = false /\
  is_stuck (release b) = is_stuck b /\ floor (release b) = floor b /\
  is_stuck (snd (press b)) = is_stuck b /\ floor (snd (press b)) = floor b.
Proof.
  destruct b as [f p s]. unfold press. simpl.
  repeat split; [eexists; split; reflexivity | destruct s; reflexivity
                | destruct s; reflexivity].
Qed.

(** ** Player *)

(** X4: with a non-negative amount, [decrease_patience] and
    [increase_patience] keep the patience within 0..100, the first never
    raises it and the second never lowers it; and within that range
    [has_patience] is False exactly at 0. *)
Theorem patience_stays_in_range (amount : Z) (p : Player) :
  0 <= amount -> patience_in_range p ->
  patience_in_range (decrease_patience amount p) /\
  patience_in_range (increase_patience amount p) /\
  patience (decrease_patience amount p) <= patience p <=
    patience (increase_patience amount p) /\
  (has_patience p = false <-> patience p = 0).
Proof.
  unfold patience_in_range, has_patience. intros Ha Hp. simpl.
  repeat split; try lia.
  - intros H. apply bool_decide_eq_false_1 in H. lia.
  - intros H. apply bool_decide_eq_false_2. lia.
Qed.

Lemma patience_stays_in_range_witness :
  patience_in_range (decrease_patience 20 (Player_init "Adventurer")) /\
  patience (increase_patience 10 (Player_init "Adventurer")) = 100.
Proof.
  assert (Hinit : patience_in_range (Player_init "Adventurer"))
    by (unfold patience_in_range; simpl; lia).
  split.
  - apply (patience_stays_in_range 20 (Player_init "Adventurer")); [lia | exact Hinit].
  - reflexivity.
Defined.

(** ** Building *)

(** X5: [get_elevator] returns an elevator exactly for the indices
    [0 <= index < len]: a negative index gives [None] (no indexing from the
    end), and so does an index past the last elevator. *)
Theorem get_elevator_some_iff (index : Z) (b : Building) :
  is_Some (get_elevator index b) <->
  0 <= index < Z.of_nat (length (elevators b)).
Proof.
  unfold get_elevator.
  destruct (bool_decide (0 <= index < Z.of_nat (length (elevators b)))) eqn:Hin.
  - apply bool_decide_eq_true_1 in Hin. split; [intros _; exact Hin|]. intros _.
    apply lookup_lt_is_Some. lia.
  - apply bool_decide_eq_false_1 in Hin. split; [|contradiction].
    intros [x Hx]. discriminate.
Qed.

(** X6: [add_elevator] appends: the new elevator is found at the index
    that was the length, and every index that answered before answers the
    same elevator. *)
Theorem get_elevator_add_elevator (e : Elevator) (b : Building) :
  get_elevator (Z.of_nat (length (elevators b))) (add_elevator e b) = Some e /\
  forall index e0,
    get_elevator index b = Some e0 ->
    get_elevator index (add_elevator e b) = Some e0.
Proof.
  unfold get_elevator, add_elevator. simpl. rewrite length_app. simpl. split.
  - rewrite bool_decide_eq_true_2 by lia.
    rewrite Nat2Z.id, lookup_app_r by lia.
    rewrite Nat.sub_diag. reflexivity.
  - intros index e0.
    destruct (bool_decide (0 <= index < Z.of_nat (length (elevators b)))) eqn:Hin;
      [|discriminate].
    apply bool_decide_eq_true_1 in Hin. intros H.
    rewrite bool_decide_eq_true_2 by lia.
    rewrite lookup_app_l by lia. exact H.
Qed.

(** ** More on the dispatch query *)

Section DispatchMore.

Implicit Types (e : Elevator) (depth : nat).

(** A returned floor is extremal in the direction the query ends with. *)
Lemma get_next_floor_extremal depth : forall e m e',
  _get_next_floor depth e = Ok (Some m, e') ->
  (direction e' = UP /\ is_min_above e m) \/
  (direction e' = DOWN /\ is_max_below e m).
Proof.
  induction depth as [|depth IH]; intros e m e' H; [discriminate|].
  rewrite get_next_floor_unfold in H.
  destruct (bool_decide (requested_floors e = ∅)); [discriminate|].
  destruct (direction e) eqn:Hd.
  - destruct (bool_decide (floors_above e = [])) eqn:Ha.
    + apply IH in H. exact H.
    + apply bool_decide_eq_false_1 in Ha.
      destruct (get_next_floor_up_hit depth e Hd Ha) as (m' & Hm' & Hmin).
      rewrite get_next_floor_unfold, Hd in Hm'.
      destruct (bool_decide (requested_floors e = ∅)); [discriminate|].
      rewrite (bool_decide_eq_false_2 _ Ha) in Hm'. rewrite Hm' in H.
      inversion H; subst. left. auto.
  - destruct (bool_decide (floors_below e = [])) eqn:Hb.
    + apply IH in H. exact H.
    + apply bool_decide_eq_false_1 in Hb.
      destruct (get_next_floor_down_hit depth e Hd Hb) as (m' & Hm' & Hmax).
      rewrite get_next_floor_unfold, Hd in Hm'.
      destruct (bool_decide (requested_floors e = ∅)); [discriminate|].
      rewrite (bool_decide_eq_false_2 _ Hb) in Hm'. rewrite Hm' in H.
      inversion H; subst. right. auto.
  - destruct (py_min (elements (requested_floors e)) e) as [[first e1]|x] eqn:Hmin;
      [|discriminate].
    assert (e1 = e) as ->.
    { destruct (elements (requested_floors e)); inversion Hmin; reflexivity. }
    apply IH in H. exact H.
Qed.

Lemma is_min_above_unique e m m' :
  is_min_above e m -> is_min_above e m' -> m = m'.
Proof.
  intros (Hin & Hgt & Hle) (Hin' & Hgt' & Hle').
  specialize (Hle m' Hin' Hgt'). specialize (Hle' m Hin Hgt). lia.
Qed.

Lemma is_max_below_unique e m m' :
  is_max_below e m -> is_max_below e m' -> m = m'.
Proof.
  intros (Hin & Hlt & Hle) (Hin' & Hlt' & Hle').
  specialize (Hle m' Hin' Hlt'). specialize (Hle' m Hin Hlt). lia.
Qed.

End DispatchMore.

(** X7: whatever the direction it starts with (Idle included), a floor
    that [_get_next_floor] returns is the nearest pending floor in the
    direction the elevator then has: the minimum pending floor above the
    current floor if that direction is Up, the maximum below if it is Down;
    and the call has changed nothing of the elevator but its direction. *)
Theorem get_next_floor_nearest_in_final_direction
    (depth : nat) (e : Elevator) (m : Z) (e' : Elevator) :
  _get_next_floor depth e = Ok (Some m, e') ->
  e' = set_direction (direction e') e /\
  ((direction e' = UP /\ is_min_above e m) \/
   (direction e' = DOWN /\ is_max_below e m)).
Proof.
  intros H. split.
  - apply (get_next_floor_result _ _ _ _ H).
  - apply (get_next_floor_extremal _ _ _ _ H).
Qed.

Lemma get_next_floor_nearest_in_final_direction_witness :
  direction (set_direction DOWN (scenario 12 IDLE [3; 8; 12])) = DOWN /\
  is_max_below (scenario 12 IDLE [3; 8; 12]) 8.
Proof.
  destruct (get_next_floor_nearest_in_final_direction 3
              (scenario 12 IDLE [3; 8; 12]) 8
              (set_direction DOWN (scenario 12 IDLE [3; 8; 12])))
    as [_ [[Hd _] | [Hd Hmax]]].
  - vm_compute. reflexivity.
  - discriminate Hd.
  - split; [exact Hd | exact Hmax].
Defined.

(** X8: asking again gives the same answer: after [_get_next_floor] has
    returned a floor, a second call on the resulting elevator returns the
    same floor and changes nothing (so the floor shown before a service is
    the floor serviced). *)
Theorem get_next_floor_stable (depth : nat) (e : Elevator) (m : Z) (e' : Elevator) :
  _get_next_floor depth e = Ok (Some m, e') ->
  _get_next_floor depth e' = Ok (Some m, e').
Proof.
  intros H. destruct depth as [|depth]; [discriminate|].
  pose proof (get_next_floor_result _ _ _ _ H) as [He' _].
  destruct (get_next_floor_extremal _ _ _ _ H) as [[Hd Hmin] | [Hd Hmax]].
  - assert (Hmin' : is_min_above e' m) by (rewrite He'; exact Hmin).
    destruct (get_next_floor_up_hit depth e' Hd) as (m' & Hm' & Hmin2).
    { apply floors_above_nonempty. exists m. destruct Hmin' as (? & ? & _). auto. }
    rewrite (is_min_above_unique _ _ _ Hmin' Hmin2). exact Hm'.
  - assert (Hmax' : is_max_below e' m) by (rewrite He'; exact Hmax).
    destruct (get_next_floor_down_hit depth e' Hd) as (m' & Hm' & Hmax2).
    { apply floors_below_nonempty. exists m. destruct Hmax' as (? & ? & _). auto. }
    rewrite (is_max_below_unique _ _ _ Hmax' Hmax2). exact Hm'.
Qed.

Lemma get_next_floor_stable_witness :
  _get_next_floor 2 (set_direction DOWN (scenario 12 UP [3; 8]))
  = Ok (Some 8, set_direction DOWN (scenario 12 UP [3; 8])).
Proof.
  apply (get_next_floor_stable 2 (scenario 12 UP [3; 8])).
  vm_compute. reflexivity.
Defined.

(** X9: from Idle, the query looks down first whenever some pending floor
    is below the current floor: it sets the direction Down and returns the
    maximum pending floor below, however close a pending floor above may
    be.  Only when no pending floor is below does it set Up and return the
    minimum pending floor above (also when the current floor itself is
    pending).  Three nested calls are enough. *)
Theorem get_next_floor_from_idle (depth : nat) (e : Elevator) :
  (3 <= depth)%nat -> direction e = IDLE ->
  ((exists f, f ∈ requested_floors e /\ f < current_floor e) ->
     exists m, _get_next_floor depth e = Ok (Some m, set_direction DOWN e) /\
               is_max_below e m) /\
  (~ (exists f, f ∈ requested_floors e /\ f < current_floor e) ->
   (exists f, f ∈ requested_floors e /\ f > current_floor e) ->
     exists m, _get_next_floor depth e = Ok (Some m, set_direction UP e) /\
               is_min_above e m).
Proof.
  intros Hdepth Hd. destruct depth as [|[|[|depth]]]; try lia. clear Hdepth.
  assert (Hfirst : requested_floors e <> ∅ ->
            exists first, py_min (elements (requested_floors e)) e = Ok (first, e) /\
              first ∈ requested_floors e /\
              forall y, y ∈ requested_floors e -> first <= y).
  { intros Hne.
    destruct (py_min_spec (elements (requested_floors e)) e) as (first & Hf & Hin & Hle).
    - intros E. apply elements_empty_iff in E. apply Hne. apply leibniz_equiv. exact E.
    - exists first. split; [exact Hf|]. split; [apply elem_of_elements; exact Hin|].
      intros y Hy. apply Hle, elem_of_elements. exact Hy. }
  split.
  - intros (f & Hf & Hlt).
    assert (Hne : requested_floors e <> ∅) by (intros E; rewrite E in Hf; inversion Hf).
    destruct (Hfirst Hne) as (first & Hmin & _ & Hle).
    rewrite get_next_floor_unfold, Hd, (bool_decide_eq_false_2 _ Hne), Hmin.
    specialize (Hle f Hf).
    rewrite bool_decide_eq_false_2 by lia.
    apply (get_next_floor_down_hit (S depth) (set_direction DOWN e)); [reflexivity|].
    apply floors_below_nonempty. exists f. auto.
  - intros Hnone (f & Hf & Hgt).
    assert (Hne : requested_floors e <> ∅) by (intros E; rewrite E in Hf; inversion Hf).
    destruct (Hfirst Hne) as (first & Hmin & Hin & Hle).
    assert (Ha : floors_above e <> []) by (apply floors_above_nonempty; eauto).
    rewrite get_next_floor_unfold, Hd, (bool_decide_eq_false_2 _ Hne), Hmin.
    destruct (bool_decide (first > current_floor e)) eqn:Hcmp.
    + apply (get_next_floor_up_hit (S depth) (set_direction UP e)); [reflexivity|].
      exact Ha.
    + assert (Hb : floors_below (set_direction DOWN e) = []).
      { destruct (decide (floors_below e = [])) as [E | E]; [exact E|].
        apply floors_below_nonempty in E. contradiction. }
      rewrite get_next_floor_down_flip by (try reflexivity; assumption).
      apply (get_next_floor_up_hit depth (set_direction UP e)); [reflexivity|].
      exact Ha.
Qed.

Lemma get_next_floor_from_idle_witness :
  exists m, _get_next_floor 3 (scenario 5 IDLE [3; 6])
            = Ok (Some m, set_direction DOWN (scenario 5 IDLE [3; 6])) /\
            is_max_below (scenario 5 IDLE [3; 6]) m.
Proof.
  apply (get_next_floor_from_idle 3 (scenario 5 IDLE [3; 6])).
  - lia.
  - reflexivity.
  - exists 3. split; [|simpl; lia]. apply elem_of_list_to_set. left.
Defined.

(** X10: [_get_next_floor] reports "none" exactly for an empty pending
    set, and it then leaves the elevator as it was: the direction is not
    reset to Idle by the query. *)
Theorem get_next_floor_none_iff_empty (e : Elevator) :
  (requested_floors e = ∅ ->
     forall depth, _get_next_floor (S depth) e = Ok (None, e)) /\
  (forall depth e', _get_next_floor depth e = Ok (None, e') ->
     requested_floors e = ∅ /\ e' = e).
Proof.
  split.
  - intros Hempty depth. rewrite get_next_floor_unfold.
    rewrite (bool_decide_eq_true_2 _ Hempty). reflexivity.
  - intros depth e' H. apply (get_next_floor_result _ _ _ _ H).
Qed.

(** ** More on the elevator's operations *)

Section OperationsMore.

Implicit Types (e : Elevator) (depth : nat).

(** [process_next_request] once the dispatch query has returned a floor. *)
Lemma process_next_request_after depth e (m : Z) (e1 : Elevator) :
  _get_next_floor depth e = Ok (Some m, e1) ->
  process_next_request depth e =
  match floor_buttons e !! m with
  | Some b =>
    Ok (true, mkElevator (config e) (elevator_id e) m
                (if bool_decide (m > current_floor e) then UP else DOWN)
                (mkDoor CLOSED) (requested_floors e ∖ {[m]})
                (<[m := release b]> (floor_buttons e)) (floors e))
  | None => Raise (KeyError m)
  end.
Proof.
  intros Hg.
  pose proof (get_next_floor_result _ _ _ _ Hg) as (He1 & Hin & Hne & _).
  assert (exists d1, e1 = set_direction d1 e) as [d1 ->] by eauto. clear He1.
  unfold process_next_request. unfold mbind at 1. unfold M_bind at 1. rewrite Hg.
  destruct e as [c id cur dir [ds] req btn fl].
  cbn [requested_floors current_floor floor_buttons] in Hin, Hne |- *.
  run. rewrite move_to_floor_spec. cbn.
  rewrite (bool_decide_eq_false_2 _ Hne).
  destruct ds; unfold is_open, is_closed, open, close; simpl;
    rewrite (bool_decide_eq_true_2 _ Hin); simpl;
    destruct (btn !! m); reflexivity.
Qed.

Lemma same_buttons_refl (m : gmap Z Button) : same_buttons_up_to_pressed m m.
Proof. intros f. destruct (m !! f); auto. Qed.

Lemma same_buttons_insert (m : gmap Z Button) (k : Z) (b b' : Button) :
  m !! k = Some b -> floor b' = floor b -> is_stuck b' = is_stuck b ->
  same_buttons_up_to_pressed m (<[k := b']> m).
Proof.
  intros Hk Hf Hs f. destruct (decide (f = k)) as [-> | Hne].
  - rewrite lookup_insert_eq, Hk. auto.
  - rewrite lookup_insert_ne by congruence. destruct (m !! f); auto.
Qed.

End OperationsMore.

(** X11: a call of [process_next_request] that returns True has serviced
    exactly one pending floor, the one [_get_next_floor] returns: the car
    stands at that floor, which was pending and was not the floor it
    started from; only that floor left the pending set, so the set is one
    smaller; its button is released and no other button changed; and the
    door is Closed. *)
Theorem process_next_request_services_one
    (depth : nat) (e e' : Elevator) :
  process_next_request depth e = Ok (true, e') ->
  let m := current_floor e' in
  (exists e1, _get_next_floor depth e = Ok (Some m, e1)) /\
  m ∈ requested_floors e /\ m <> current_floor e /\
  requested_floors e' = requested_floors e ∖ {[m]} /\
  S (size (requested_floors e')) = size (requested_floors e) /\
  (exists b, floor_buttons e !! m = Some b /\
             floor_buttons e' = <[m := release b]> (floor_buttons e)) /\
  door e' = mkDoor CLOSED.
Proof.
  intros H. cbv zeta.
  destruct (_get_next_floor depth e) as [[[m|] e1]|x] eqn:Hg.
  - rewrite (process_next_request_after _ _ _ _ Hg) in H.
    pose proof (get_next_floor_result _ _ _ _ Hg) as (_ & Hin & Hne & _).
    destruct (floor_buttons e !! m) as [b|] eqn:Hb; [|discriminate].
    inversion H; subst e'; clear H. simpl.
    split; [eauto|]. split; [exact Hin|]. split; [exact Hne|].
    split; [reflexivity|]. split; [|split; [eauto | reflexivity]].
    rewrite size_difference by (apply singleton_subseteq_l; exact Hin).
    rewrite size_singleton.
    assert (size (requested_floors e) <> 0)%nat.
    { intros E. apply size_empty_iff in E. apply (not_elem_of_empty (C := gset Z) m).
      rewrite <- E. exact Hin. }
    lia.
  - unfold process_next_request in H. unfold mbind at 1 in H.
    unfold M_bind at 1 in H. rewrite Hg in H. discriminate.
  - unfold process_next_request in H. unfold mbind at 1 in H.
    unfold M_bind at 1 in H. rewrite Hg in H. discriminate.
Qed.

Lemma process_next_request_services_one_witness :
  current_floor (after (process_next_request 3) (after (press_floor_button 4) fresh))
    ∈ requested_floors (after (press_floor_button 4) fresh) /\
  door (after (process_next_request 3) (after (press_floor_button 4) fresh))
    = mkDoor CLOSED.
Proof.
  destruct (process_next_request_services_one 3
              (after (press_floor_button 4) fresh)
              (after (process_next_request 3) (after (press_floor_button 4) fresh)))
    as (_ & Hin & _ & _ & _ & _ & Hdoor).
  - vm_compute. reflexivity.
  - split; [exact Hin | exact Hdoor].
Defined.

(** X12: [process_next_request] returns False exactly when nothing is
    pending; it then sets the direction to Idle and touches nothing else,
    the door included. *)
Theorem process_next_request_idle_iff_empty (e : Elevator) :
  (requested_floors e = ∅ ->
     forall depth, process_next_request (S depth) e = Ok (false, set_direction IDLE e)) /\
  (forall depth e', process_next_request depth e = Ok (false, e') ->
     requested_floors e = ∅ /\ e' = set_direction IDLE e).
Proof.
  split.
  - intros Hempty depth.
    unfold process_next_request. unfold mbind at 1. unfold M_bind at 1.
    rewrite get_next_floor_unfold, (bool_decide_eq_true_2 _ Hempty). reflexivity.
  - intros depth e' H.
    apply process_next_request_cases in H as [(_ & Hempty & He') | (Hr & _)];
      [auto | discriminate].
Qed.

(** X13: pressing the button of a floor that is already pending changes
    nothing: a second accepted [press_floor_button] for the same floor
    leaves the elevator exactly as the first one left it. *)
Theorem press_floor_button_twice (e : Elevator) (f : Z) (e1 : Elevator) :
  press_floor_button f e = Ok (true, e1) ->
  press_floor_button f e1 = Ok (true, e1).
Proof.
  intros H.
  apply press_floor_button_cases in H as [[Hr _] | (_ & Hin & b & Hb & Hs & ->)];
    [discriminate|].
  assert (Hp : snd (press b) = mkButton (floor b) true false)
    by (unfold press; rewrite Hs; reflexivity).
  rewrite Hp. clear Hp.
  unfold press_floor_button. run.
  rewrite bool_decide_eq_true_2 by exact Hin. simpl.
  rewrite lookup_insert_eq. unfold press. simpl.
  assert (Hd : (if bool_decide (direction e = IDLE)
                then if bool_decide (f > current_floor e) then UP else DOWN
                else direction e) <> IDLE).
  { destruct (bool_decide (direction e = IDLE)) eqn:E.
    - destruct (bool_decide (f > current_floor e)); discriminate.
    - apply bool_decide_eq_false_1 in E. exact E. }
  rewrite (bool_decide_eq_false_2 _ Hd). simpl.
  do 2 f_equal. apply elevator_eq; simpl; try reflexivity.
  - rewrite union_assoc_L, union_idemp_L. reflexivity.
  - rewrite insert_insert_eq. reflexivity.
Qed.

Lemma press_floor_button_twice_witness :
  press_floor_button 4 (after (press_floor_button 4) fresh)
  = Ok (true, after (press_floor_button 4) fresh).
Proof.
  apply (press_floor_button_twice fresh). vm_compute. reflexivity.
Defined.

(** X14: [press_floor_button], [process_next_request] and
    [add_random_stop] never add or remove a button and never change a
    button's floor or stuck flag: the dictionaries before and after differ
    at most in which buttons are pressed. *)
Theorem operations_keep_buttons (e : Elevator) :
  (forall f (r : bool) e', press_floor_button f e = Ok (r, e') ->
     same_buttons_up_to_pressed (floor_buttons e) (floor_buttons e')) /\
  (forall depth (r : bool) e', process_next_request depth e = Ok (r, e') ->
     same_buttons_up_to_pressed (floor_buttons e) (floor_buttons e')) /\
  (forall rf, floor_buttons (add_random_stop rf e) = floor_buttons e).
Proof.
  split; [|split].
  - intros f r e' H.
    apply press_floor_button_cases in H as [[_ ->] | (_ & _ & b & Hb & Hs & ->)];
      [apply same_buttons_refl|].
    simpl. apply (same_buttons_insert _ _ b); [exact Hb | |];
      unfold press; rewrite Hs; reflexivity.
  - intros depth r e' H.
    apply process_next_request_cases in H
      as [(_ & _ & ->) | (_ & m & b & _ & _ & Hb & ->)];
      [apply same_buttons_refl|].
    simpl. apply (same_buttons_insert _ _ b); [exact Hb | |]; reflexivity.
  - intros rf. unfold add_random_stop.
    destruct (bool_decide (_ < _)); [|reflexivity].
    destruct (bool_decide (rf <> _)); reflexivity.
Qed.

(** X15: a new elevator has a button exactly for the floors
    [min_floors..max_floors], each with its own floor number, released and
    not stuck; [get_button] answers [None] for any other floor.  Its list
    of floors has the same numbers, in order. *)
Theorem get_button_new_elevator (c : ElevatorConfig) (id : string) (f : Z) :
  get_button f (Elevator_init c id) =
    (if bool_decide (min_floors c <= f <= max_floors c)
     then Some (Button_init f) else None) /\
  number <$> floors (Elevator_init c id) = floor_range c /\
  (forall g, g ∈ floor_range c <-> min_floors c <= g <= max_floors c).
Proof.
  split; [|split].
  - unfold get_button. rewrite init_buttons.
    destruct (decide (min_floors c <= f <= max_floors c)) as [H | H].
    + rewrite bool_decide_eq_true_2 by exact H. reflexivity.
    + rewrite bool_decide_eq_false_2 by exact H. reflexivity.
  - cbn [Elevator_init floors]. rewrite <- list_fmap_compose.
    apply list_fmap_id.
  - intros g. unfold floor_range. rewrite elem_of_seqZ. lia.
Qed.

(** X16: [move_to_floor] moves the car to its target and touches nothing
    but the current floor and the direction: Up when the target is above,
    Down when it is below, and unchanged when the car is already there. *)
Theorem move_to_floor_frame (target : Z) (e : Elevator) :
  let e' := move_to_floor target e in
  current_floor e' = target /\
  direction e' = (if bool_decide (target > current_floor e) then UP
                  else if bool_decide (target < current_floor e) then DOWN
                  else direction e) /\
  config e' = config e /\ door e' = door e /\
  requested_floors e' = requested_floors e /\
  floor_buttons e' = floor_buttons e /\
  move_to_floor target e' = e'.
Proof.
  cbv zeta. rewrite !move_to_floor_spec.
  destruct (bool_decide (target = current_floor e)) eqn:Heq.
  - rewrite Heq. apply bool_decide_eq_true_1 in Heq. subst target.
    rewrite (bool_decide_eq_false_2 (current_floor e > current_floor e)) by lia.
    rewrite (bool_decide_eq_false_2 (current_floor e < current_floor e)) by lia.
    repeat split; reflexivity.
  - apply bool_decide_eq_false_1 in Heq. simpl.
    rewrite (bool_decide_eq_true_2 (target = target)) by reflexivity.
    repeat split; try reflexivity.
    destruct (bool_decide (target > current_floor e)) eqn:Hgt; [reflexivity|].
    apply bool_decide_eq_false_1 in Hgt.
    rewrite bool_decide_eq_true_2 by lia. reflexivity.
Qed.

(** ** Interactive mode *)

Section Interactive.

Import InteractiveElevatorMode.

Implicit Types (e : Elevator) (depth fuel : nat).

Lemma same_buttons_trans (m1 m2 m3 : gmap Z Button) :
  same_buttons_up_to_pressed m1 m2 -> same_buttons_up_to_pressed m2 m3 ->
  same_buttons_up_to_pressed m1 m3.
Proof.
  intros H12 H23 f. specialize (H12 f). specialize (H23 f).
  destruct (m1 !! f), (m2 !! f), (m3 !! f); try tauto.
  destruct H12, H23. split; congruence.
Qed.

Lemma same_buttons_complete e e' :
  config e' = config e ->
  same_buttons_up_to_pressed (floor_buttons e) (floor_buttons e') ->
  buttons_complete e -> buttons_complete e'.
Proof.
  intros Hc Hs Hb f Hf. rewrite Hc in Hf. destruct (Hb f Hf) as [b Hlk].
  specialize (Hs f). rewrite Hlk in Hs.
  destruct (floor_buttons e' !! f); [eauto | contradiction].
Qed.

Lemma same_buttons_no_stuck e e' :
  same_buttons_up_to_pressed (floor_buttons e) (floor_buttons e') ->
  no_button_stuck e -> no_button_stuck e'.
Proof.
  intros Hs Hn f b' Hlk. specialize (Hs f). rewrite Hlk in Hs.
  destruct (floor_buttons e !! f) as [b|] eqn:Hb; [|contradiction].
  destruct Hs as [_ ->]. apply (Hn f b Hb).
Qed.

(** The movement loop of [_move_to_floor]. *)
Lemma interactive_steps (d : Direction) (l : list Z) : forall e,
  foldl (fun self _ =>
           if bool_decide (d = UP)
           then set_current_floor (current_floor self + 1) self
           else set_current_floor (current_floor self - 1) self) e l =
  set_current_floor
    (if bool_decide (d = UP) then current_floor e + Z.of_nat (length l)
     else current_floor e - Z.of_nat (length l)) e.
Proof.
  induction l as [|a l IH]; intros e.
  - simpl. destruct (bool_decide (d = UP));
      rewrite ?Z.add_0_r, ?Z.sub_0_r; destruct e; reflexivity.
  - cbn [foldl]. rewrite IH. destruct (bool_decide (d = UP));
      unfold set_current_floor; simpl; f_equal; lia.
Qed.

Lemma floors_passed_length (start target : Z) :
  let d := if bool_decide (target > start) then UP else DOWN in
  (if bool_decide (d = UP)
   then start + Z.of_nat (length (floors_passed d start target))
   else start - Z.of_nat (length (floors_passed d start target))) = target.
Proof.
  cbv zeta. unfold floors_passed.
  destruct (bool_decide (target > start)) eqn:Hgt.
  - apply bool_decide_eq_true_1 in Hgt.
    rewrite bool_decide_eq_true_2 by reflexivity. rewrite length_seqZ. lia.
  - apply bool_decide_eq_false_1 in Hgt.
    rewrite bool_decide_eq_false_2 by discriminate.
    rewrite length_fmap, length_seqZ. lia.
Qed.

(** [_move_to_floor] as a function of the elevator: it always returns. *)
Lemma interactive_move_spec (t : Z) e :
  _move_to_floor t e =
  Ok (tt, mkElevator (config e) (elevator_id e) t
            (if bool_decide (requested_floors e ∖ {[t]} = ∅) then IDLE
             else direction e)
            (mkDoor OPEN) (requested_floors e ∖ {[t]})
            (match floor_buttons e !! t with
             | Some b => <[t := release b]> (floor_buttons e)
             | None => floor_buttons e
             end) (floors e)).
Proof.
  pose proof (floors_passed_length (current_floor e) t) as Hlen. cbv zeta in Hlen.
  destruct e as [c id cur dir [ds] req btn fl].
  cbn [current_floor] in Hlen.
  unfold _move_to_floor, get_button. run.
  destruct ds; unfold is_open, is_closed, open, close; simpl;
    rewrite interactive_steps;
    unfold set_door, set_current_floor, set_state; cbn [current_floor];
    rewrite Hlen; simpl;
    destruct (btn !! t); simpl;
    destruct (bool_decide (req ∖ {[t]} = ∅)); reflexivity.
Qed.

(** The loop of [_process_pending_requests] empties the pending set. *)
Lemma process_pending_drains depth : (3 <= depth)%nat -> forall fuel e,
  dispatchable e -> (size (requested_floors e) < fuel)%nat ->
  exists e',
    _process_pending_requests fuel depth e = Some (Ok (tt, e')) /\
    requested_floors e' = ∅ /\ config e' = config e /\
    same_buttons_up_to_pressed (floor_buttons e) (floor_buttons e') /\
    (requested_floors e = ∅ -> e' = e) /\
    (requested_floors e <> ∅ ->
       direction e' = IDLE /\ current_floor e' ∈ requested_floors e /\
       door e' = mkDoor OPEN).
Proof.
  intros Hdepth. induction fuel as [|fuel IH]; intros e Hdisp Hsize; [lia|].
  cbn [_process_pending_requests].
  destruct (bool_decide (requested_floors e = ∅)) eqn:Hempty.
  { apply bool_decide_eq_true_1 in Hempty. exists e.
    repeat split; auto using same_buttons_refl; contradiction. }
  apply bool_decide_eq_false_1 in Hempty.
  destruct Hdisp as [E | Hex]; [contradiction|].
  destruct (get_next_floor_returns depth e Hdepth Hex) as (m & e1 & Hg).
  pose proof (get_next_floor_result _ _ _ _ Hg) as (He1 & Hin & Hne & _).
  rewrite Hg, interactive_move_spec.
  assert (exists d1, e1 = set_direction d1 e) as [d1 ->] by eauto. clear He1.
  cbn [config elevator_id requested_floors floor_buttons floors direction
       set_direction].
  set (e2 := mkElevator _ _ _ _ _ _ _ _).
  assert (Hsz : S (size (requested_floors e2)) = size (requested_floors e)).
  { subst e2. cbn [requested_floors].
    rewrite size_difference by (apply singleton_subseteq_l; exact Hin).
    rewrite size_singleton.
    assert (size (requested_floors e) <> 0)%nat.
    { intros E. apply size_empty_iff in E. apply Hempty, leibniz_equiv. exact E. }
    lia. }
  assert (Hdisp2 : dispatchable e2).
  { destruct (decide (requested_floors e2 = ∅)) as [E | E]; [left; exact E|].
    right. apply set_choose_L in E as [f Hf]. exists f. split; [exact Hf|].
    subst e2. cbn [requested_floors current_floor] in Hf |- *.
    apply elem_of_difference in Hf as [_ Hf]. intros ->. apply Hf.
    apply elem_of_singleton. reflexivity. }
  assert (Hbtn2 : same_buttons_up_to_pressed (floor_buttons e) (floor_buttons e2)).
  { subst e2. cbn [floor_buttons].
    destruct (floor_buttons e !! m) as [b|] eqn:Hb; [|apply same_buttons_refl].
    apply (same_buttons_insert _ _ b); [exact Hb | |]; reflexivity. }
  destruct (IH e2 Hdisp2) as (e' & Hrun & Hreq' & Hcfg & Hbtn & Hsame & Hlast); [lia|].
  exists e'. split; [exact Hrun|]. split; [exact Hreq'|]. split; [exact Hcfg|].
  split; [eapply same_buttons_trans; eassumption|].
  split; [contradiction|]. intros _.
  destruct (decide (requested_floors e2 = ∅)) as [E | E].
  - rewrite (Hsame E). subst e2. cbn [requested_floors] in E.
    cbn [direction current_floor door]. rewrite (bool_decide_eq_true_2 _ E). auto.
  - destruct (Hlast E) as (Hd & Hcur & Hdoor). split; [exact Hd|]. split; [|exact Hdoor].
    subst e2. cbn [requested_floors] in Hcur.
    apply elem_of_difference in Hcur as [Hcur _]. exact Hcur.
Qed.

(** An accepted press, as a function of the elevator. *)
Lemma press_floor_button_accepts e (f : Z) (b : Button) :
  min_floors (config e) <= f <= max_floors (config e) ->
  floor_buttons e !! f = Some b -> is_stuck b = false ->
  press_floor_button f e =
  Ok (true, mkElevator (config e) (elevator_id e) (current_floor e)
              (if bool_decide (direction e = IDLE)
               then (if bool_decide (f > current_floor e) then UP else DOWN)
               else direction e)
              (door e) ({[f]} ∪ requested_floors e)
              (<[f := mkButton (floor b) true false]> (floor_buttons e)) (floors e)).
Proof.
  intros Hin Hb Hs. unfold press_floor_button. run.
  rewrite bool_decide_eq_true_2 by exact Hin. simpl.
  rewrite Hb. unfold press. rewrite Hs. simpl.
  destruct (bool_decide (direction e = IDLE)); reflexivity.
Qed.

End Interactive.

(** X17: [InteractiveElevatorMode._move_to_floor] never raises, whatever
    the target (a floor without a button included): the car ends at the
    target with the door Open, the target is no longer pending, its button
    (if there is one) is released, no other floor left the pending set and
    no button changed floor or stuck flag. *)
Theorem interactive_move_to_floor_effect (target : Z) (e : Elevator) :
  exists e',
    InteractiveElevatorMode._move_to_floor target e = Ok (tt, e') /\
    current_floor e' = target /\ door e' = mkDoor OPEN /\
    requested_floors e' = requested_floors e ∖ {[target]} /\
    config e' = config e /\
    same_buttons_up_to_pressed (floor_buttons e) (floor_buttons e') /\
    (forall b, floor_buttons e' !! target = Some b -> is_pressed b = false).
Proof.
  eexists. split; [apply interactive_move_spec|]. simpl.
  repeat split.
  - destruct (floor_buttons e !! target) as [b|] eqn:Hb; [|apply same_buttons_refl].
    apply (same_buttons_insert _ _ b); [exact Hb | |]; reflexivity.
  - intros b'. destruct (floor_buttons e !! target) as [b|] eqn:Hb.
    + rewrite lookup_insert_eq. intros H. inversion H. reflexivity.
    + rewrite Hb. discriminate.
Qed.

(** X18: unlike [process_next_request], the interactive mode's
    [_move_to_floor] keeps "direction is Idle iff nothing is pending": it
    sets Idle itself when the floor it serviced was the last pending one.
    It also keeps every pending floor's button pressed. *)
Theorem interactive_move_keeps_invariants (target : Z) (e e' : Elevator) :
  InteractiveElevatorMode._move_to_floor target e = Ok (tt, e') ->
  (idle_iff_empty e -> idle_iff_empty e') /\
  (requests_pressed e -> requests_pressed e').
Proof.
  rewrite interactive_move_spec. intros H. inversion H; subst e'; clear H. split.
  - intros [Hi He]. unfold idle_iff_empty. simpl.
    destruct (bool_decide (requested_floors e ∖ {[target]} = ∅)) eqn:E.
    + apply bool_decide_eq_true_1 in E. tauto.
    + apply bool_decide_eq_false_1 in E. split; [|contradiction].
      intros Hd. apply Hi in Hd. exfalso. apply E. rewrite Hd.
      apply (subseteq_empty_difference_L ∅ {[target]}), empty_subseteq.
  - intros Hinv g Hg. simpl in Hg |- *.
    apply elem_of_difference in Hg as [Hg Hne].
    assert (g <> target) by (intros ->; apply Hne, elem_of_singleton; reflexivity).
    destruct (floor_buttons e !! target) as [b|].
    + rewrite lookup_insert_ne by congruence. apply Hinv. exact Hg.
    + apply Hinv. exact Hg.
Qed.

Lemma interactive_move_keeps_invariants_witness :
  idle_iff_empty
    (after (InteractiveElevatorMode._move_to_floor 4) (after (press_floor_button 4) fresh)).
Proof.
  apply (interactive_move_keeps_invariants 4 (after (press_floor_button 4) fresh)).
  - vm_compute. reflexivity.
  - split; [discriminate|]. intros E. exfalso.
    apply (not_elem_of_empty (C := gset Z) 4). rewrite <- E.
    change (4 ∈ ({[4]} ∪ ∅ : gset Z)). apply elem_of_union_l, elem_of_singleton.
    reflexivity.
Defined.

(** X19: [_process_pending_requests] services every pending floor and
    stops: when some pending floor is not the current floor, it returns
    within as many loop iterations as there are pending floors (and three
    nested calls of the dispatch query), with nothing pending, direction
    Idle, the door Open and the car at one of the floors that were
    pending. *)
Theorem process_pending_requests_drains (fuel depth : nat) (e : Elevator) :
  (3 <= depth)%nat ->
  (size (requested_floors e) < fuel)%nat ->
  (exists f, f ∈ requested_floors e /\ f <> current_floor e) ->
  exists e',
    InteractiveElevatorMode._process_pending_requests fuel depth e = Some (Ok (tt, e')) /\
    requested_floors e' = ∅ /\ direction e' = IDLE /\
    door e' = mkDoor OPEN /\ current_floor e' ∈ requested_floors e.
Proof.
  intros Hdepth Hsize Hex.
  destruct (process_pending_drains depth Hdepth fuel e) as (e' & Hrun & Hreq & _ & _ & _ & Hlast);
    [right; exact Hex | exact Hsize |].
  destruct Hlast as (Hd & Hcur & Hdoor).
  { destruct Hex as (f & Hf & _). intros E. rewrite E in Hf. inversion Hf. }
  exists e'. auto.
Qed.

Lemma process_pending_requests_drains_witness :
  exists e',
    InteractiveElevatorMode._process_pending_requests 3 3 (scenario 5 UP [3; 8])
      = Some (Ok (tt, e')) /\
    requested_floors e' = ∅ /\ direction e' = IDLE /\
    door e' = mkDoor OPEN /\ current_floor e' ∈ requested_floors (scenario 5 UP [3; 8]).
Proof.
  apply (process_pending_requests_drains 3 3 (scenario 5 UP [3; 8])).
  - lia.
  - vm_compute. lia.
  - exists 3. split; [|simpl; lia]. apply elem_of_list_to_set. left.
Defined.

Section InteractivePlay.

Import InteractiveElevatorMode.

Lemma at_rest_fresh : at_rest fresh.
Proof.
  repeat split.
  - apply buttons_complete_init.
  - intros f b Hb. unfold fresh in Hb. rewrite init_buttons in Hb.
    destruct (decide _); inversion Hb. reflexivity.
Qed.

Lemma play_turn_at_rest (fuel depth : nat) (t : Z) (e : Elevator) :
  (2 <= fuel)%nat -> (3 <= depth)%nat -> at_rest e -> 1 <= t <= 15 ->
  exists e', play_turn fuel depth t e = Some (Ok (tt, e')) /\
             at_rest e' /\ current_floor e' = t.
Proof.
  intros Hfuel Hdepth (Hcfg & Hreq & Hd & Hbtn & Hstuck) Ht. unfold play_turn.
  destruct (bool_decide (t = current_floor e)) eqn:Heq.
  { apply bool_decide_eq_true_1 in Heq. exists e. repeat split; auto. }
  apply bool_decide_eq_false_1 in Heq.
  assert (Hin : min_floors (config e) <= t <= max_floors (config e))
    by (rewrite Hcfg; simpl; lia).
  destruct (Hbtn t Hin) as [b Hb].
  rewrite (press_floor_button_accepts e t b Hin Hb (Hstuck t b Hb)).
  set (e1 := mkElevator _ _ _ _ _ _ _ _).
  assert (Hreq1 : requested_floors e1 = {[t]}).
  { subst e1. cbn [requested_floors]. rewrite Hreq. apply union_empty_r_L. }
  destruct (process_pending_drains depth Hdepth fuel e1)
    as (e' & Hrun & Hreq' & Hcfg' & Hsame & _ & Hlast).
  { right. exists t. split; [rewrite Hreq1; apply elem_of_singleton; reflexivity|].
    exact Heq. }
  { rewrite Hreq1, size_singleton. lia. }
  destruct Hlast as (Hd' & Hcur & _).
  { rewrite Hreq1. apply non_empty_singleton_L. }
  assert (Hsame1 : same_buttons_up_to_pressed (floor_buttons e) (floor_buttons e1)).
  { subst e1. cbn [floor_buttons].
    apply (same_buttons_insert _ _ b); [exact Hb | reflexivity |].
    simpl. symmetry. apply (Hstuck t b Hb). }
  exists e'. split; [exact Hrun|]. split.
  - split; [rewrite Hcfg'; exact Hcfg|]. split; [exact Hreq'|]. split; [exact Hd'|].
    split.
    + apply (same_buttons_complete e); [rewrite Hcfg'; reflexivity | | exact Hbtn].
      eapply same_buttons_trans; eassumption.
    + apply (same_buttons_no_stuck e); [|exact Hstuck].
      eapply same_buttons_trans; eassumption.
  - rewrite Hreq1 in Hcur. apply elem_of_singleton in Hcur. exact Hcur.
Qed.

End InteractivePlay.

(** X20: the interactive mode never gets stuck: starting from the new
    elevator of [InteractiveElevatorMode.__init__], whatever floors within
    1..15 the user enters, every turn returns without an exception (the
    guard on the current floor keeps the dispatch query away from its
    unbounded recursion), and between turns nothing is pending, the
    direction is Idle and the car stands at the last floor entered. *)
Theorem interactive_play_never_stuck (fuel depth : nat) (targets : list Z) :
  (2 <= fuel)%nat -> (3 <= depth)%nat ->
  Forall (fun t => 1 <= t <= 15) targets ->
  exists e',
    InteractiveElevatorMode.play_turns fuel depth targets fresh = Some (Ok (tt, e')) /\
    requested_floors e' = ∅ /\ direction e' = IDLE /\
    current_floor e' = default 1 (last targets).
Proof.
  intros Hfuel Hdepth Hall.
  assert (Hgen : forall e, at_rest e ->
            exists e', InteractiveElevatorMode.play_turns fuel depth targets e
                       = Some (Ok (tt, e')) /\
                       at_rest e' /\
                       current_floor e' = default (current_floor e) (last targets)).
  { induction Hall as [|t targets Ht Hall IH]; intros e He.
    - exists e. repeat split; try apply He.
    - destruct (play_turn_at_rest fuel depth t e Hfuel Hdepth He Ht)
        as (e1 & Hturn & He1 & Hcur1).
      destruct (IH e1 He1) as (e' & Hrun & He' & Hcur').
      exists e'. cbn [InteractiveElevatorMode.play_turns]. rewrite Hturn.
      split; [exact Hrun|]. split; [exact He'|].
      rewrite Hcur'. rewrite Hcur1. destruct targets as [|t' targets']; [reflexivity|].
      rewrite last_cons_cons. destruct (last (t' :: targets')) eqn:E; [reflexivity|].
      apply last_None in E. discriminate. }
  destruct (Hgen fresh at_rest_fresh) as (e' & Hrun & (_ & Hreq & Hd & _) & Hcur).
  exists e'. auto.
Qed.

Lemma interactive_play_never_stuck_witness :
  exists e',
    InteractiveElevatorMode.play_turns 2 3 [7; 7; 1; 15] fresh = Some (Ok (tt, e')) /\
    requested_floors e' = ∅ /\ direction e' = IDLE /\
    current_floor e' = default 1 (last [7; 7; 1; 15]).
Proof.
  apply (interactive_play_never_stuck 2 3 [7; 7; 1; 15]); [lia | lia |].
  repeat constructor; lia.
Defined.

(** ** Events *)

Section Events.

Implicit Types (e : Elevator) (ev : Event).

Lemma add_random_stop_frame (rf : Z) e :
  current_floor (add_random_stop rf e) = current_floor e /\
  direction (add_random_stop rf e) = direction e /\
  config (add_random_stop rf e) = config e /\
  door (add_random_stop rf e) = door e /\
  floor_buttons (add_random_stop rf e) = floor_buttons e /\
  requested_floors e ⊆ requested_floors (add_random_stop rf e) /\
  (forall f, f ∈ requested_floors (add_random_stop rf e) ->
     f ∈ requested_floors e \/ (f = rf /\ f <> current_floor e)).
Proof.
  unfold add_random_stop.
  destruct (bool_decide (_ < _)); [|repeat split; auto].
  destruct (bool_decide (rf <> current_floor e)) eqn:Hrf; [|repeat split; auto].
  apply bool_decide_eq_true_1 in Hrf. simpl. repeat split.
  - apply union_subseteq_r.
  - intros f Hf. apply elem_of_union in Hf as [Hf | Hf]; [|auto].
    apply elem_of_singleton in Hf. subst f. auto.
Qed.

End Events.

(** X21: whatever the event, the choice and the draws, [handle_choice]
    never moves the car, never changes its direction or configuration,
    never removes a pending floor and never presses or releases a button;
    the pending set grows by at most one floor, the random stop, which is
    never the current floor. *)
Theorem handle_choice_frame
    (choice : Z) (chance : bool) (rf : Z) (ev : Event) (e : Elevator) :
  let e' := snd (handle_choice choice chance rf ev e) in
  current_floor e' = current_floor e /\ direction e' = direction e /\
  config e' = config e /\
  requested_floors e ⊆ requested_floors e' /\
  (forall f, f ∈ requested_floors e' ->
     f ∈ requested_floors e \/ (f = rf /\ f <> current_floor e)) /\
  (forall f, is_pressed <$> (floor_buttons e' !! f) =
             is_pressed <$> (floor_buttons e !! f)).
Proof.
  cbv zeta.
  pose proof (add_random_stop_frame rf e) as (Hc & Hd & Hcfg & _ & Hb & Hsub & Hnew).
  assert (Hsame : current_floor e = current_floor e /\ direction e = direction e /\
                  config e = config e /\ requested_floors e ⊆ requested_floors e /\
                  (forall f, f ∈ requested_floors e ->
                     f ∈ requested_floors e \/ (f = rf /\ f <> current_floor e)) /\
                  (forall f, is_pressed <$> (floor_buttons e !! f) =
                             is_pressed <$> (floor_buttons e !! f)))
    by (repeat split; auto).
  assert (Hrand : current_floor (add_random_stop rf e) = current_floor e /\
                  direction (add_random_stop rf e) = direction e /\
                  config (add_random_stop rf e) = config e /\
                  requested_floors e ⊆ requested_floors (add_random_stop rf e) /\
                  (forall f, f ∈ requested_floors (add_random_stop rf e) ->
                     f ∈ requested_floors e \/ (f = rf /\ f <> current_floor e)) /\
                  (forall f, is_pressed <$> (floor_buttons (add_random_stop rf e) !! f) =
                             is_pressed <$> (floor_buttons e !! f)))
    by (rewrite Hb; repeat split; auto).
  destruct ev as [b | b k | b | b]; unfold handle_choice;
    destruct (bool_decide (choice = 1)); try exact Hsame;
    destruct (bool_decide (choice = 2)); try exact Hsame; try exact Hrand;
    try (destruct chance; exact Hsame).
  - destruct chance; [|exact Hsame]. simpl. repeat split; auto.
    intros f. rewrite lookup_alter. destruct (decide (k = f)) as [<- |]; [|reflexivity].
    destruct (floor_buttons e !! k); reflexivity.
Qed.

(** X22: on an elevator whose door is at rest (Open or Closed, as it is
    between any two calls), an [UnexpectedStopEvent] changes nothing of the
    elevator, whatever the choice: with choice 2 the event is marked
    resolved and the message says the doors open, but [force_open] has
    refused and a Closed door is still Closed. *)
Theorem unexpected_stop_leaves_elevator
    (choice : Z) (chance : bool) (rf : Z) (b : ElevatorEvent) (e : Elevator) :
  settled (door e) ->
  snd (handle_choice choice chance rf (UnexpectedStopEvent b) e) = e /\
  handle_choice 2 chance rf (UnexpectedStopEvent b) e =
    ((true, "[SUCCESS] You press the door button and the doors open!"%string),
     UnexpectedStopEvent (set_resolved b), e).
Proof.
  intros Hs.
  assert (Hdoor : set_door (snd (force_open (door e))) e = e).
  { destruct e as [c id cur dir [ds] req btn fl]. destruct Hs as [H | H];
      simpl in H; subst ds; reflexivity. }
  split.
  - unfold handle_choice.
    destruct (bool_decide (choice = 1)); [reflexivity|].
    destruct (bool_decide (choice = 2)); [|reflexivity]. exact Hdoor.
  - unfold handle_choice. simpl. rewrite Hdoor. reflexivity.
Qed.

Lemma unexpected_stop_leaves_elevator_witness :
  snd (handle_choice 2 true 7 (UnexpectedStopEvent (ElevatorEvent_init 3)) fresh) = fresh.
Proof.
  apply (unexpected_stop_leaves_elevator 2 true 7 (ElevatorEvent_init 3) fresh).
  right. reflexivity.
Defined.

(** X23: a [StuckButtonEvent] changes the elevator only when the fix
    succeeds (choice 2 and a favourable draw): the button it refers to is
    then not stuck, so [press_floor_button] for that floor is accepted if
    the floor is within bounds.  With any other choice or an unfavourable
    draw the elevator is exactly as before: a failed fix does not make the
    button worse. *)
Theorem stuck_button_event_fix
    (choice : Z) (chance : bool) (rf : Z) (b : ElevatorEvent) (k : Z) (e : Elevator) :
  min_floors (config e) <= k <= max_floors (config e) ->
  is_Some (floor_buttons e !! k) ->
  (choice <> 2 \/ chance = false ->
     snd (handle_choice choice chance rf (StuckButtonEvent b k) e) = e) /\
  (exists e', press_floor_button k
                (snd (handle_choice 2 true rf (StuckButtonEvent b k) e))
              = Ok (true, e')).
Proof.
  intros Hin [bt Hb]. split.
  - intros H. unfold handle_choice.
    destruct (bool_decide (choice = 1)); [reflexivity|].
    destruct (bool_decide (choice = 2)) eqn:E; [|reflexivity].
    apply bool_decide_eq_true_1 in E. destruct H as [H | ->]; [contradiction|].
    reflexivity.
  - unfold handle_choice. simpl. eexists.
    apply (press_floor_button_accepts _ k (set_stuck false bt)).
    + exact Hin.
    + simpl. rewrite lookup_alter, decide_True by reflexivity. rewrite Hb. reflexivity.
    + reflexivity.
Qed.

Lemma stuck_button_event_fix_witness :
  press_floor_button 5 elevator_c = Ok (false, elevator_c) /\
  exists e', press_floor_button 5
               (snd (handle_choice 2 true 7
                       (StuckButtonEvent (ElevatorEvent_init 3) 5) elevator_c))
             = Ok (true, e').
Proof.
  split; [vm_compute; reflexivity|].
  apply (stuck_button_event_fix 2 true 7 (ElevatorEvent_init 3) 5 elevator_c).
  - simpl. lia.
  - eexists. vm_compute. reflexivity.
Defined.

(** X24: [handle_event] keeps the patience within 0..100 when the draw is
    within 5..20, and sets it exactly as follows.  When the event reports a
    delay the patience is lowered by the draw (down to 0 at most).  When it
    reports none, the patience is raised by 5 (up to 100) if the event is a
    [MusicEvent] or a [StuckButtonEvent] fixed with choice 2 and a
    favourable draw, and is left as it was otherwise.  Such a fix never
    comes with a delay, whereas an [UnexpectedStopEvent] always does: its
    "[SUCCESS]" costs patience. *)
Theorem handle_event_patience
    (choice : Z) (chance : bool) (rf draw : Z) (ev : Event) (p : Player) (e : Elevator) :
  5 <= draw <= 20 -> patience_in_range p ->
  let fixed :=
    bool_decide (choice = 2) && chance &&
    match ev with
    | MusicEvent _ | StuckButtonEvent _ _ => true
    | UnexpectedStopEvent _ | WeirdSoundEvent _ => false
    end in
  let '(causes_delay, _, p', _) := handle_event choice chance rf draw ev p e in
  patience_in_range p' /\
  (causes_delay = true -> p' = decrease_patience draw p) /\
  (causes_delay = false -> p' = if fixed then increase_patience 5 p else p) /\
  (fixed = true -> causes_delay = false) /\
  ((exists b, ev = UnexpectedStopEvent b) -> causes_delay = true).
Proof.
  intros Hdraw Hp.
  assert (Hdec : patience_in_range (decrease_patience draw p))
    by (unfold patience_in_range in *; simpl; lia).
  assert (Hinc : patience_in_range (increase_patience 5 p))
    by (unfold patience_in_range in *; simpl; lia).
  assert (Hexcl : bool_decide (choice = 1) = true -> bool_decide (choice = 2) = false).
  { intros H1. apply bool_decide_eq_true_1 in H1. apply bool_decide_eq_false_2. lia. }
  unfold handle_event, handle_choice.
  destruct ev as [b | b k | b | b];
    destruct (bool_decide (choice = 1)) eqn:E1;
    try rewrite (Hexcl eq_refl);
    try destruct (bool_decide (choice = 2)) eqn:E2;
    try destruct chance;
    cbn;
    (split; [assumption|]);
    (split; [intros; try reflexivity; discriminate|]);
    (split; [intros; try reflexivity; discriminate|]);
    (split; [intros; try reflexivity; discriminate|]);
    intros [b' Hev]; try reflexivity; discriminate.
Qed.

Lemma handle_event_patience_witness :
  patience
    (snd (fst (handle_event 2 true 7 12 (MusicEvent (ElevatorEvent_init 3))
                 (decrease_patience 10 (Player_init "Adventurer")) fresh))) = 95 /\
  patience
    (snd (fst (handle_event 2 true 7 12 (UnexpectedStopEvent (ElevatorEvent_init 3))
                 (Player_init "Adventurer") fresh))) = 88.
Proof.
  split.
  - pose proof (handle_event_patience 2 true 7 12
                  (MusicEvent (ElevatorEvent_init 3))
                  (decrease_patience 10 (Player_init "Adventurer")) fresh) as H.
    cbv zeta in H.
    destruct (handle_event 2 true 7 12 (MusicEvent (ElevatorEvent_init 3))
                (decrease_patience 10 (Player_init "Adventurer")) fresh)
      as [[[causes_delay ev'] p'] e'].
    destruct H as (_ & _ & Hbonus & Hfix & _);
      [lia | unfold patience_in_range; simpl; lia |].
    simpl. rewrite (Hbonus (Hfix eq_refl)). reflexivity.
  - pose proof (handle_event_patience 2 true 7 12
                  (UnexpectedStopEvent (ElevatorEvent_init 3))
                  (Player_init "Adventurer") fresh) as H.
    cbv zeta in H.
    destruct (handle_event 2 true 7 12 (UnexpectedStopEvent (ElevatorEvent_init 3))
                (Player_init "Adventurer") fresh)
      as [[[causes_delay ev'] p'] e'].
    destruct H as (_ & Hdelay & _ & _ & Hstop);
      [lia | unfold patience_in_range; simpl; lia |].
    simpl. rewrite (Hdelay (Hstop (ex_intro _ _ eq_refl))). reflexivity.
Defined.

(** ** The adventure game's building *)

Section Game.

Lemma new_elevator_accepts (id : string) (f : Z) :
  1 <= f <= 15 ->
  exists e', press_floor_button f (Elevator_init default_config id) = Ok (true, e').
Proof.
  intros Hf. eexists.
  apply (press_floor_button_accepts _ f (Button_init f)); [simpl; lia | | reflexivity].
  rewrite init_buttons. apply decide_True. simpl. lia.
Qed.

Lemma press_floor_button_stuck (e : Elevator) (f : Z) (b : Button) :
  min_floors (config e) <= f <= max_floors (config e) ->
  floor_buttons e !! f = Some b -> is_stuck b = true ->
  press_floor_button f e = Ok (false, e).
Proof.
  intros Hin Hb Hs. unfold press_floor_button. run.
  rewrite bool_decide_eq_true_2 by exact Hin. simpl.
  rewrite Hb. unfold press. rewrite Hs. simpl.
  do 2 f_equal. apply elevator_eq; simpl; try reflexivity.
  apply insert_id. exact Hb.
Qed.

Lemma get_button_5_new (id : string) :
  get_button 5 (Elevator_init default_config id) = Some (Button_init 5).
Proof. unfold get_button. rewrite init_buttons. reflexivity. Qed.

End Game.

(** X25: the adventure game's building answers exactly the three choices
    of the elevator menu: choice 1, 2 or 3 selects elevator A, B or C, a
    new elevator at floor 1 with nothing pending, and no other index
    selects anything.  The selected elevator accepts the button of every
    floor 1..15, except that elevator C rejects floor 5, leaving the
    elevator unchanged, when the game made that button stuck. *)
Theorem game_elevator_selection (quirk : bool) (choice : Z) :
  1 <= choice <= 3 ->
  exists e,
    get_elevator (choice - 1) (ElevatorAdventureGame_init quirk) = Some e /\
    elevator_id e = (if bool_decide (choice = 1) then "A"
                     else if bool_decide (choice = 2) then "B" else "C")%string /\
    current_floor e = 1 /\ direction e = IDLE /\ requested_floors e = ∅ /\
    (forall f, 1 <= f <= 15 ->
       if quirk && bool_decide (choice = 3) && bool_decide (f = 5)
       then press_floor_button f e = Ok (false, e)
       else exists e', press_floor_button f e = Ok (true, e')) /\
    (forall index, ~ (0 <= index <= 2) ->
       get_elevator index (ElevatorAdventureGame_init quirk) = None).
Proof.
  intros Hc.
  assert (Hnone : forall index, ~ (0 <= index <= 2) ->
            get_elevator index (ElevatorAdventureGame_init quirk) = None).
  { intros index Hi. unfold get_elevator.
    rewrite bool_decide_eq_false_2; [reflexivity|].
    unfold ElevatorAdventureGame_init, add_elevator, Building_init. simpl. lia. }
  unfold ElevatorAdventureGame_init in *. rewrite get_button_5_new in *.
  assert (choice = 1 \/ choice = 2 \/ choice = 3) as [-> | [-> | ->]] by lia.
  - eexists. split; [reflexivity|]. repeat split; try exact Hnone.
    intros f Hf. rewrite andb_false_r. simpl. apply new_elevator_accepts. exact Hf.
  - eexists. split; [reflexivity|]. repeat split; try exact Hnone.
    intros f Hf. rewrite andb_false_r. simpl. apply new_elevator_accepts. exact Hf.
  - destruct quirk.
    + eexists. split; [reflexivity|]. repeat split; try exact Hnone.
      intros f Hf. rewrite (bool_decide_eq_true_2 (3 = 3)) by reflexivity.
      cbn [andb]. destruct (bool_decide (f = 5)) eqn:E.
      * apply bool_decide_eq_true_1 in E. subst f.
        apply (press_floor_button_stuck _ 5 (set_stuck true (Button_init 5)));
          [simpl; lia | apply lookup_insert_eq | reflexivity].
      * apply bool_decide_eq_false_1 in E. eexists.
        apply (press_floor_button_accepts _ f (Button_init f));
          [simpl; lia | | reflexivity].
        cbn [floor_buttons set_floor_buttons].
        rewrite lookup_insert_ne by congruence.
        rewrite init_buttons. apply decide_True. simpl. lia.
    + eexists. split; [reflexivity|]. repeat split; try exact Hnone.
      intros f Hf. simpl. apply new_elevator_accepts. exact Hf.
Qed.

Lemma game_elevator_selection_witness :
  exists e,
    get_elevator (3 - 1) (ElevatorAdventureGame_init true) = Some e /\
    elevator_id e = "C"%string /\
    press_floor_button 5 e = Ok (false, e).
Proof.
  destruct (game_elevator_selection true 3) as (e & Hget & Hid & _ & _ & _ & Hpress & _);
    [lia|].
  exists e. split; [exact Hget|]. split; [exact Hid|].
  apply (Hpress 5). lia.
Defined.

(** ** Every reachable elevator *)

Section Reachable.

Variable c : ElevatorConfig.

Lemma well_formed_same_buttons (e e' : Elevator) :
  same_buttons_up_to_pressed (floor_buttons e) (floor_buttons e') ->
  (forall f, min_floors c <= f <= max_floors c ->
     exists b, floor_buttons e !! f = Some b /\ floor b = f /\ is_stuck b = false) /\
  (forall f, ~ (min_floors c <= f <= max_floors c) -> floor_buttons e !! f = None) ->
  (forall f, min_floors c <= f <= max_floors c ->
     exists b, floor_buttons e' !! f = Some b /\ floor b = f /\ is_stuck b = false) /\
  (forall f, ~ (min_floors c <= f <= max_floors c) -> floor_buttons e' !! f = None).
Proof.
  intros Hs [Hin Hout]. split.
  - intros f Hf. destruct (Hin f Hf) as (b & Hb & Hfl & Hst).
    specialize (Hs f). rewrite Hb in Hs.
    destruct (floor_buttons e' !! f) as [b'|]; [|contradiction].
    destruct Hs as [Hfl' Hst']. exists b'. split; [reflexivity|]. split; congruence.
  - intros f Hf. specialize (Hs f). rewrite (Hout f Hf) in Hs.
    destruct (floor_buttons e' !! f); [contradiction | reflexivity].
Qed.

Lemma well_formed_init (id : string) :
  min_floors c <= max_floors c -> well_formed c (Elevator_init c id).
Proof.
  intros Hc. split; [reflexivity|]. split; [unfold floor_in_bounds; simpl; lia|].
  split; [apply requests_in_bounds_init|]. split; [reflexivity|]. split.
  - intros f Hf. rewrite init_buttons, decide_True by exact Hf. eauto.
  - intros f Hf. rewrite init_buttons, decide_False by exact Hf. reflexivity.
Qed.

Lemma well_formed_press (e : Elevator) (f : Z) (r : bool) (e' : Elevator) :
  well_formed c e -> press_floor_button f e = Ok (r, e') -> well_formed c e'.
Proof.
  intros (Hcfg & Hfl & Hreq & Hdoor & Hbtn) H.
  pose proof (requests_in_bounds_press _ _ _ _ Hreq H) as Hreq'.
  assert (Hs : same_buttons_up_to_pressed (floor_buttons e) (floor_buttons e')).
  { apply press_floor_button_cases in H as [[_ ->] | (_ & _ & b & Hb & Hs & ->)];
      [apply same_buttons_refl|].
    simpl. apply (same_buttons_insert _ _ b); [exact Hb | |];
      unfold press; rewrite Hs; reflexivity. }
  apply press_floor_button_cases in H as [[_ ->] | (_ & _ & b & _ & _ & ->)].
  - exact (conj Hcfg (conj Hfl (conj Hreq (conj Hdoor Hbtn)))).
  - split; [exact Hcfg|]. split; [exact Hfl|]. split; [exact Hreq'|].
    split; [exact Hdoor|]. apply (well_formed_same_buttons e); assumption.
Qed.

Lemma well_formed_random (e : Elevator) (rf : Z) :
  well_formed c e -> min_floors c <= rf <= max_floors c ->
  well_formed c (add_random_stop rf e).
Proof.
  intros (Hcfg & Hfl & Hreq & Hdoor & Hbtn) Hrf.
  assert (Hreq' : requests_in_bounds (add_random_stop rf e))
    by (apply requests_in_bounds_random; [exact Hreq | rewrite Hcfg; exact Hrf]).
  pose proof (add_random_stop_frame rf e) as (Hc' & _ & Hcfg' & Hdoor' & Hb' & _).
  split; [congruence|]. split; [unfold floor_in_bounds in *; rewrite Hcfg', Hc'; exact Hfl|].
  split; [exact Hreq'|]. split; [congruence|]. rewrite Hb'. exact Hbtn.
Qed.

Lemma well_formed_process (e : Elevator) (depth : nat) (r : bool) (e' : Elevator) :
  well_formed c e -> process_next_request depth e = Ok (r, e') -> well_formed c e'.
Proof.
  intros (Hcfg & Hfl & Hreq & Hdoor & Hbtn) H.
  pose proof (requests_in_bounds_process _ _ _ _ Hreq H) as Hreq'.
  apply process_next_request_cases in H
    as [(_ & _ & ->) | (_ & m & b & Hin & _ & Hb & ->)].
  - exact (conj Hcfg (conj Hfl (conj Hreq (conj Hdoor Hbtn)))).
  - split; [exact Hcfg|]. split; [unfold floor_in_bounds; simpl; apply Hreq, Hin|].
    split; [exact Hreq'|]. split; [reflexivity|].
    apply (well_formed_same_buttons e); [|exact Hbtn]. simpl.
    apply (same_buttons_insert _ _ b); [exact Hb | |]; reflexivity.
Qed.

End Reachable.

Lemma reachable_well_formed_aux (c : ElevatorConfig) (e : Elevator) :
  min_floors c <= max_floors c -> reachable c e -> well_formed c e.
Proof.
  intros Hc Hr. induction Hr as [id | e f r e' _ IH H | e rf _ IH Hrf | e depth r e' _ IH H].
  - apply well_formed_init. exact Hc.
  - eapply well_formed_press; eassumption.
  - apply well_formed_random; assumption.
  - eapply well_formed_process; eassumption.
Qed.

(** X26: every elevator that [press_floor_button], [add_random_stop] and
    [process_next_request] produce from a new elevator (of a configuration
    with [min_floors <= max_floors]) keeps its configuration, has its
    current floor and every pending floor within bounds, has its door
    Closed, and has, for exactly the floors within bounds, a button that
    carries that floor's number and is not stuck. *)
Theorem reachable_well_formed (c : ElevatorConfig) (e : Elevator) :
  min_floors c <= max_floors c -> reachable c e -> well_formed c e.
Proof. apply reachable_well_formed_aux. Qed.

Lemma reachable_well_formed_witness :
  well_formed default_config
    (after (process_next_request 3) (add_random_stop 7 (after (press_floor_button 4) fresh))).
Proof.
  apply reachable_well_formed; [simpl; lia|].
  apply (reach_process _ (add_random_stop 7 (after (press_floor_button 4) fresh)) 3 true);
    [|vm_compute; reflexivity].
  apply reach_random; [|simpl; lia].
  apply (reach_press _ fresh 4 true); [apply reach_init | vm_compute; reflexivity].
Defined.

(** X27: on a reachable elevator, with three nested calls allowed to the
    dispatch query, [process_next_request] fails in exactly one situation:
    it raises [RecursionError] when the current floor is the only pending
    floor, and returns normally otherwise; it never raises [KeyError]. *)
Theorem process_next_request_reachable
    (c : ElevatorConfig) (e : Elevator) (depth : nat) :
  min_floors c <= max_floors c -> reachable c e -> (3 <= depth)%nat ->
  (requested_floors e = {[current_floor e]} ->
     process_next_request depth e = Raise RecursionError) /\
  (requested_floors e <> {[current_floor e]} ->
     exists (r : bool) e', process_next_request depth e = Ok (r, e')).
Proof.
  intros Hc Hr Hdepth.
  destruct (reachable_well_formed_aux c e Hc Hr) as (Hcfg & _ & Hreq & _ & Hin & _).
  split.
  - intros Hone. unfold process_next_request. unfold mbind at 1. unfold M_bind at 1.
    rewrite (get_next_floor_only_current depth e Hone). reflexivity.
  - intros Hne. apply process_next_request_returns; [exact Hdepth | | exact Hreq |].
    + intros f Hf. rewrite Hcfg in Hf. destruct (Hin f Hf) as (b & Hb & _). eauto.
    + destruct (decide (requested_floors e = ∅)) as [E | E]; [left; exact E|]. right.
      destruct (decide (requested_floors e ∖ {[current_floor e]} = ∅)) as [D | D].
      * exfalso. apply Hne. apply set_eq. intros x. rewrite elem_of_singleton. split.
        -- intros Hx. destruct (decide (x = current_floor e)) as [-> | Hxne]; [reflexivity|].
           exfalso. apply (not_elem_of_empty (C := gset Z) x). rewrite <- D.
           apply elem_of_difference. split; [exact Hx|]. rewrite elem_of_singleton. exact Hxne.
        -- intros ->. apply set_choose_L in E as [y Hy].
           destruct (decide (y = current_floor e)) as [<- | Hyne]; [exact Hy|].
           exfalso. apply (not_elem_of_empty (C := gset Z) y). rewrite <- D.
           apply elem_of_difference. split; [exact Hy|]. rewrite elem_of_singleton. exact Hyne.
      * apply set_choose_L in D as [f Hf]. apply elem_of_difference in Hf as [Hf Hfne].
        exists f. split; [exact Hf|]. intros ->. apply Hfne, elem_of_singleton. reflexivity.
Qed.

Lemma process_next_request_reachable_witness :
  process_next_request 3 (after (press_floor_button 1) fresh) = Raise RecursionError /\
  exists (r : bool) e', process_next_request 3 (after (press_floor_button 4) fresh) = Ok (r, e').
Proof.
  split.
  - apply (process_next_request_reachable default_config); [simpl; lia | | lia |].
    + apply (reach_press _ fresh 1 true); [apply reach_init | vm_compute; reflexivity].
    + vm_compute. reflexivity.
  - apply (process_next_request_reachable default_config); [simpl; lia | | lia |].
    + apply (reach_press _ fresh 4 true); [apply reach_init | vm_compute; reflexivity].
    + intros E. assert (H : (4 : Z) ∈ ({[1]} : gset Z)).
      { change (4 ∈ ({[current_floor (after (press_floor_button 4) fresh)]} : gset Z)).
        rewrite <- E. change (4 ∈ ({[4]} ∪ ∅ : gset Z)).
        apply elem_of_union_l, elem_of_singleton. reflexivity. }
      apply elem_of_singleton in H. discriminate.
Defined.
